(** * Bias-aware grid search: a shallow embedding of
      [bias_aware_gridsearch.py] and the properties of its search and
      selection methods.

    The class [BiasAwareGridSearchCV] is a Python object whose only
    mutable field is [results_].  Its methods are modelled as
    computations in a state-and-exception monad over a world made of the
    object and a log of the calls made on the estimator capability.
    Scores are finite Python floats, modelled by the rationals [Q] they
    denote; [np.mean], which rounds, is taken as a given function. *)

From Stdlib Require Import String.
From Stdlib Require Import List ZArith QArith Bool Arith Lia Lqa.
From Stdlib Require Import Permutation.
Import ListNotations.

Set Implicit Arguments.
Local Open Scope nat_scope.

(** ** Python results and exceptions *)

(** The exceptions the code and its collaborators can raise.
    [InvalidThresholdError] and [NotImplementedError] belong to the
    error taxonomy of the specification. *)
Inductive PyExn : Type :=
| ValueError
| KeyError
| IndexError
| ConfigurationError
| DataError
| InvalidThresholdError
| NotImplementedError.

Inductive Result (A : Type) : Type :=
| Ok (a : A)
| Raise (e : PyExn).

Arguments Ok {A} a.
Arguments Raise {A} e.

(** A computation on a state [S]: an exception leaves the state as it
    was when it was raised (nothing is rolled back). *)
Definition M (S A : Type) : Type := S -> Result A * S.

Definition ret {S A} (a : A) : M S A := fun s => (Ok a, s).

Definition bind {S A B} (c : M S A) (k : A -> M S B) : M S B :=
  fun s =>
    match c s with
    | (Ok a, s') => k a s'
    | (Raise e, s') => (Raise e, s')
    end.

Definition lift {S A} (r : Result A) : M S A := fun s => (r, s).

Definition modify {S} (f : S -> S) : M S unit := fun s => (Ok tt, f s).

Declare Scope py_scope.
Delimit Scope py_scope with py.
Notation "x <- c ;; k" := (bind c (fun x => k))
  (at level 61, c at next level, right associativity) : py_scope.
Notation "' pat <- c ;; k" := (bind c (fun x => match x with pat => k end))
  (at level 61, pat pattern, c at next level, right associativity) : py_scope.
Notation "c ;;; k" := (bind c (fun _ => k))
  (at level 61, right associativity) : py_scope.

Local Open Scope py_scope.

(** [for x in xs: body(x)]: stops at the first exception. *)
Fixpoint for_each {S X} (xs : list X) (body : X -> M S unit) : M S unit :=
  match xs with
  | [] => ret tt
  | x :: xs' => body x ;;; for_each xs' body
  end.

(** A [for] loop that updates local accumulators. *)
Fixpoint for_fold {S X B} (xs : list X) (body : B -> X -> M S B) (b : B)
  : M S B :=
  match xs with
  | [] => ret b
  | x :: xs' => b' <- body b x ;; for_fold xs' body b'
  end.

(** ** Python builtins used by the selection methods *)

Definition Qltb (x y : Q) : bool :=
  match (x ?= y)%Q with Lt => true | _ => false end.

Section Builtins.
Context {A : Type} (key : A -> Q).

(** [max(it, key=key)] keeps the first item whose key no later item
    exceeds: an item replaces the running maximum only when its key is
    strictly greater. *)
Fixpoint max_from (best : A) (l : list A) : A :=
  match l with
  | [] => best
  | x :: l' => max_from (if Qltb (key best) (key x) then x else best) l'
  end.

Definition py_max (l : list A) : Result A :=
  match l with
  | [] => Raise ValueError
  | x :: l' => Ok (max_from x l')
  end.

(** [min(it, key=key)]: an item replaces the running minimum only when
    its key is strictly smaller. *)
Fixpoint min_from (best : A) (l : list A) : A :=
  match l with
  | [] => best
  | x :: l' => min_from (if Qltb (key x) (key best) then x else best) l'
  end.

Definition py_min (l : list A) : Result A :=
  match l with
  | [] => Raise ValueError
  | x :: l' => Ok (min_from x l')
  end.

(** [sorted(it, key=key, reverse=True)]: descending keys; the sort is
    stable, items with equal keys keep their original order. *)
Fixpoint insert_desc (x : A) (l : list A) : list A :=
  match l with
  | [] => [x]
  | y :: l' =>
      if Qltb (key x) (key y) then y :: insert_desc x l' else x :: l
  end.

Definition sorted_reverse (l : list A) : list A :=
  fold_right insert_desc [] l.

(** [l[:stop]] for a Python integer [stop]: a negative [stop] counts
    from the end. *)
Definition slice_to (stop : Z) (l : list A) : list A :=
  if (stop <? 0)%Z
  then firstn (Z.to_nat (Z.of_nat (length l) + stop)) l
  else firstn (Z.to_nat stop) l.
End Builtins.

(** ** Data: values, configurations, tables *)

(** Cell and hyperparameter values; [PNaN] is the missing value pandas
    fills in when it aligns rows. *)
Inductive pyval : Type :=
| PInt (z : Z)
| PFloat (q : Q)
| PStr (s : string)
| PNaN.

(** One point of the grid: hyperparameter name to value. *)
Definition Config : Type := list (string * pyval).

(** The dicts appended to [results_]. *)
Record EvalRecord : Type := {
  params : Config;
  accuracy : Q;
  bias : Q
}.

(** A numpy array, or the values of one column. *)
Definition Array : Type := list pyval.

(** A pandas Series: values with their row labels (integers here). *)
Record Series : Type := {
  s_index : list Z;
  s_values : Array
}.

(** A pandas table: row labels and named columns.  [iloc] addresses
    rows by position; building a table from Series aligns them on
    their labels. *)
Record DataFrame : Type := {
  index : list Z;
  columns : list (string * Array)
}.

(** [len(d)] *)
Definition nrows (d : DataFrame) : nat := length (index d).

Definition column_names (d : DataFrame) : list string :=
  map fst (columns d).

Fixpoint take_positions {V} (s : list V) (idx : list nat)
  : Result (list V) :=
  match idx with
  | [] => Ok []
  | i :: idx' =>
      match nth_error s i with
      | None => Raise IndexError
      | Some v =>
          match take_positions s idx' with
          | Ok vs => Ok (v :: vs)
          | Raise e => Raise e
          end
      end
  end.

(** [s.iloc[idx]]: the selected rows keep their labels. *)
Definition iloc_series (s : Series) (idx : list nat) : Result Series :=
  match take_positions (s_values s) idx with
  | Raise e => Raise e
  | Ok vs =>
      match take_positions (s_index s) idx with
      | Ok ix => Ok {| s_index := ix; s_values := vs |}
      | Raise e => Raise e
      end
  end.

Fixpoint iloc_columns (cs : list (string * Array)) (idx : list nat)
  : Result (list (string * Array)) :=
  match cs with
  | [] => Ok []
  | (name, s) :: cs' =>
      match take_positions s idx with
      | Raise e => Raise e
      | Ok s' =>
          match iloc_columns cs' idx with
          | Ok r => Ok ((name, s') :: r)
          | Raise e => Raise e
          end
      end
  end.

(** [d.iloc[idx]]: the selected rows keep their labels. *)
Definition iloc (d : DataFrame) (idx : list nat) : Result DataFrame :=
  match take_positions (index d) idx with
  | Raise e => Raise e
  | Ok ix =>
      match iloc_columns (columns d) idx with
      | Ok cs => Ok {| index := ix; columns := cs |}
      | Raise e => Raise e
      end
  end.

Fixpoint lookup_column (cs : list (string * Array)) (name : string)
  : option Array :=
  match cs with
  | [] => None
  | (n, s) :: cs' => if String.eqb n name then Some s else lookup_column cs' name
  end.

(** [d[name]]: the column, with the labels of the table. *)
Definition getitem (d : DataFrame) (name : string) : Result Series :=
  match lookup_column (columns d) name with
  | Some s => Ok {| s_index := index d; s_values := s |}
  | None => Raise KeyError
  end.

(** [d.drop(columns=[name])] *)
Definition drop_columns (d : DataFrame) (name : string) : Result DataFrame :=
  match lookup_column (columns d) name with
  | None => Raise KeyError
  | Some _ =>
      Ok {| index := index d;
            columns := filter (fun c => negb (String.eqb (fst c) name))
                              (columns d) |}
  end.

Fixpoint assign_column (cs : list (string * Array)) (name : string)
  (s : Array) : list (string * Array) :=
  match cs with
  | [] => [(name, s)]
  | (n, s0) :: cs' =>
      if String.eqb n name then (n, s) :: cs'
      else (n, s0) :: assign_column cs' name s
  end.

(** [d[name] = a] for an array [a]: it must have one value per row; the
    column is replaced, or added last. *)
Definition setitem (d : DataFrame) (name : string) (a : Array)
  : Result DataFrame :=
  if length a =? nrows d
  then Ok {| index := index d; columns := assign_column (columns d) name a |}
  else Raise ValueError.

Fixpoint same_labels (a b : list Z) : bool :=
  match a, b with
  | [], [] => true
  | x :: a', y :: b' => (x =? y)%Z && same_labels a' b'
  | _, _ => false
  end.

Fixpoint has_duplicate (l : list Z) : bool :=
  match l with
  | [] => false
  | z :: l' => existsb (Z.eqb z) l' || has_duplicate l'
  end.

Fixpoint insert_label (z : Z) (l : list Z) : list Z :=
  match l with
  | [] => [z]
  | y :: l' =>
      if (z <? y)%Z then z :: l
      else if (z =? y)%Z then l
      else y :: insert_label z l'
  end.

(** The union of two label lists: sorted, each label once. *)
Definition union_labels (a b : list Z) : list Z :=
  fold_right insert_label [] (a ++ b).

Fixpoint value_at (ix : list Z) (vs : Array) (z : Z) : option pyval :=
  match ix, vs with
  | y :: ix', v :: vs' => if (y =? z)%Z then Some v else value_at ix' vs' z
  | _, _ => None
  end.

(** [s.reindex(ix)]: the value of each label, [NaN] where the Series
    has none. *)
Definition reindex (s : Series) (ix : list Z) : Array :=
  map (fun z => match value_at (s_index s) (s_values s) z with
                | Some v => v
                | None => PNaN
                end) ix.

(** [pd.DataFrame({k1: s1, k2: s2})].  In the dict literal a later
    equal key replaces the earlier one.  Two Series with the same
    labels in the same order are put side by side; otherwise the rows
    are the sorted union of the labels and each Series is reindexed on
    it, which fails when a Series has a label twice. *)
Definition DataFrame_of_dict (k1 : string) (s1 : Series) (k2 : string)
  (s2 : Series) : Result DataFrame :=
  if String.eqb k1 k2
  then Ok {| index := s_index s2; columns := [(k1, s_values s2)] |}
  else if same_labels (s_index s1) (s_index s2)
  then Ok {| index := s_index s1;
             columns := [(k1, s_values s1); (k2, s_values s2)] |}
  else if has_duplicate (s_index s1) || has_duplicate (s_index s2)
  then Raise ValueError
  else
    let ix := union_labels (s_index s1) (s_index s2) in
    Ok {| index := ix; columns := [(k1, reindex s1 ix); (k2, reindex s2 ix)] |}.

(** ** scikit-learn: [KFold] without shuffling and [ParameterGrid] *)

Record KFold : Type := { n_splits : nat }.

(** [KFold(n_splits=n)] rejects fewer than two folds. *)
Definition KFold_init (n : Z) : Result KFold :=
  if (n <=? 1)%Z then Raise ValueError
  else Ok {| n_splits := Z.to_nat n |}.

(** The first [n_samples mod k] folds hold one sample more. *)
Definition fold_sizes (n_samples k : nat) : list nat :=
  map (fun i => n_samples / k + (if i <? n_samples mod k then 1 else 0))
      (seq 0 k).

Fixpoint test_folds (start : nat) (sizes : list nat) : list (list nat) :=
  match sizes with
  | [] => []
  | size :: rest => seq start size :: test_folds (start + size) rest
  end.

Definition train_of (n_samples : nat) (test : list nat) : list nat :=
  filter (fun i => negb (existsb (Nat.eqb i) test)) (seq 0 n_samples).

(** [kf.split(X)]: the pairs (train indices, validation indices); it
    raises when there are more folds than samples. *)
Definition split (kf : KFold) (n_samples : nat)
  : Result (list (list nat * list nat)) :=
  if n_samples <? n_splits kf then Raise ValueError
  else Ok (map (fun test => (train_of n_samples test, test))
               (test_folds 0 (fold_sizes n_samples (n_splits kf)))).

(** [itertools.product] over the value lists: the last list varies
    fastest. *)
Fixpoint product {V} (values : list (list V)) : list (list V) :=
  match values with
  | [] => [[]]
  | vs :: rest => flat_map (fun v => map (cons v) (product rest)) vs
  end.

(** [sorted(p.items())]: the keys of a dict are distinct, so the items
    are ordered by key alone. *)
Fixpoint insert_item {V} (x : string * V) (l : list (string * V))
  : list (string * V) :=
  match l with
  | [] => [x]
  | y :: l' =>
      if String.ltb (fst y) (fst x) then y :: insert_item x l' else x :: l
  end.

Definition sorted_items {V} (l : list (string * V)) : list (string * V) :=
  fold_right insert_item [] l.

(** The grid: a dict from parameter name to the list of values to try,
    in insertion order. *)
Definition ParamGrid : Type := list (string * list pyval).

(** The configurations [ParameterGrid(param_grid)] yields, in order. *)
Definition grid_configs (param_grid : ParamGrid) : list Config :=
  let items := sorted_items param_grid in
  let keys := map fst items in
  let values := map snd items in
  map (fun v => combine keys v) (product values).

(** [ParameterGrid(param_grid)]: an empty list of values is rejected
    when the grid is built. *)
Definition ParameterGrid (param_grid : ParamGrid) : Result (list Config) :=
  if existsb (fun kv => match snd kv with [] => true | _ => false end)
             param_grid
  then Raise ValueError
  else Ok (grid_configs param_grid).

(** The size of the Cartesian product of the per-parameter value lists. *)
Definition grid_size (param_grid : ParamGrid) : nat :=
  fold_right (fun kv n => length (snd kv) * n) 1 param_grid.

(** ** The collaborators *)

(** The trainable model: [clone], [set_params] with the configuration
    as keywords, [fit] and [predict].  In-place mutation of a clone is
    modelled by returning the updated estimator. *)
Class Estimator (E : Type) : Type := {
  clone : E -> Result E;
  set_params : E -> Config -> Result E;
  model_fit : E -> DataFrame -> Series -> Result E;
  predict : E -> DataFrame -> Result Array
}.

(** [accuracy_score] of scikit-learn, [np.mean] of numpy and
    [calculate_disparate_impact] of the module [util], which is not
    part of the sources at hand: all are taken as given functions.
    [np.mean] is the mean in floating-point arithmetic: its result may
    differ from the exact mean by rounding. *)
Class Metrics : Type := {
  accuracy_score : Series -> Array -> Result Q;
  np_mean : list Q -> Q;
  calculate_disparate_impact :
    DataFrame -> string -> string -> pyval -> pyval -> Result Q
}.

(** ** The object and the world *)

Record BiasAwareGridSearchCV (E : Type) : Type := {
  estimator : E;
  param_grid : ParamGrid;
  df : DataFrame;
  outcome_column : string;
  protected_attribute : string;
  privileged_value : pyval;
  unprivileged_value : pyval;
  cv : Z;
  results_ : list EvalRecord
}.

(** [__init__] *)
Definition __init__ {E} (estimator : E) (param_grid : ParamGrid)
  (df : DataFrame) (outcome_column protected_attribute : string)
  (privileged_value unprivileged_value : pyval) (cv : Z)
  : BiasAwareGridSearchCV E :=
  {| estimator := estimator;
     param_grid := param_grid;
     df := df;
     outcome_column := outcome_column;
     protected_attribute := protected_attribute;
     privileged_value := privileged_value;
     unprivileged_value := unprivileged_value;
     cv := cv;
     results_ := [] |}.

Definition set_results {E} (self : BiasAwareGridSearchCV E)
  (rs : list EvalRecord) : BiasAwareGridSearchCV E :=
  {| estimator := estimator self;
     param_grid := param_grid self;
     df := df self;
     outcome_column := outcome_column self;
     protected_attribute := protected_attribute self;
     privileged_value := privileged_value self;
     unprivileged_value := unprivileged_value self;
     cv := cv self;
     results_ := rs |}.

(** The calls received by the estimator capability, oldest first. *)
Inductive Call (E : Type) : Type :=
| CClone (e : E)
| CSetParams (e : E) (p : Config)
| CFit (e : E) (X : DataFrame) (y : Series)
| CPredict (e : E) (X : DataFrame).

Record World (E : Type) : Type := {
  this : BiasAwareGridSearchCV E;
  calls : list (Call E)
}.

Definition Py (E A : Type) : Type := M (World E) A.

Section Methods.
Context {E : Type} `{Estimator E} {metrics : Metrics}.

Definition get_self : Py E (BiasAwareGridSearchCV E) :=
  fun w => (Ok (this w), w).

Definition record_call (c : Call E) : Py E unit :=
  modify (fun w => {| this := this w; calls := calls w ++ [c] |}).

(** [self.results_.append(r)] *)
Definition results_append (r : EvalRecord) : Py E unit :=
  modify (fun w =>
    {| this := set_results (this w) (results_ (this w) ++ [r]);
       calls := calls w |}).

Definition call_clone (e : E) : Py E E :=
  record_call (CClone e) ;;; lift (clone e).

Definition call_set_params (e : E) (p : Config) : Py E E :=
  record_call (CSetParams e p) ;;; lift (set_params e p).

Definition call_fit (e : E) (X : DataFrame) (y : Series) : Py E E :=
  record_call (CFit e X y) ;;; lift (model_fit e X y).

Definition call_predict (e : E) (X : DataFrame) : Py E Array :=
  record_call (CPredict e X) ;;; lift (predict e X).

(** The body of the loop over the folds (lines 47 to 63). *)
Definition evaluate_fold (self : BiasAwareGridSearchCV E)
  (X_train : DataFrame) (y_train : Series) (params : Config)
  (acc : list Q * list Q) (fold : list nat * list nat)
  : Py E (list Q * list Q) :=
  let '(accuracies, biases) := acc in
  let '(train_index, val_index) := fold in
  X_train_fold <- lift (iloc X_train train_index) ;;
  X_val_fold <- lift (iloc X_train val_index) ;;
  y_train_fold <- lift (iloc_series y_train train_index) ;;
  y_val_fold <- lift (iloc_series y_train val_index) ;;
  model <- call_clone (estimator self) ;;
  model <- call_set_params model params ;;
  model <- call_fit model X_train_fold y_train_fold ;;
  preds <- call_predict model X_val_fold ;;
  accuracy <- lift (accuracy_score y_val_fold preds) ;;
  let accuracies := accuracies ++ [accuracy] in
  protected_attr_val <- lift (getitem X_val_fold (protected_attribute self)) ;;
  temp_df <- lift (DataFrame_of_dict (outcome_column self) y_val_fold
                     (protected_attribute self) protected_attr_val) ;;
  temp_df <- lift (setitem temp_df (outcome_column self ++ "_pred") preds) ;;
  bias <- lift (calculate_disparate_impact temp_df
                  (outcome_column self ++ "_pred")
                  (protected_attribute self)
                  (privileged_value self) (unprivileged_value self)) ;;
  let biases := biases ++ [bias] in
  ret (accuracies, biases).

(** The body of the loop over the configurations (lines 43 to 72). *)
Definition evaluate_config (self : BiasAwareGridSearchCV E) (kf : KFold)
  (X_train : DataFrame) (y_train : Series) (params : Config)
  : Py E unit :=
  folds <- lift (split kf (nrows X_train)) ;;
  scores <- for_fold folds (evaluate_fold self X_train y_train params)
                     ([], []) ;;
  let avg_accuracy := np_mean (fst scores) in
  let avg_bias := np_mean (snd scores) in
  results_append
    {| params := params; accuracy := avg_accuracy; bias := avg_bias |}.

Definition fit (X_train : DataFrame) (y_train : Series) : Py E unit :=
  self <- get_self ;;
  kf <- lift (KFold_init (cv self)) ;;
  grid <- lift (ParameterGrid (param_grid self)) ;;
  for_each grid (evaluate_config self kf X_train y_train).

Definition _retrain_model (params : Config) : Py E E :=
  self <- get_self ;;
  model <- call_clone (estimator self) ;;
  model <- call_set_params model params ;;
  features <- lift (drop_columns (df self) (outcome_column self)) ;;
  target <- lift (getitem (df self) (outcome_column self)) ;;
  model <- call_fit model features target ;;
  ret model.

Definition select_highest_accuracy_model : Py E E :=
  self <- get_self ;;
  best <- lift (py_max accuracy (results_ self)) ;;
  let best_params := params best in
  _retrain_model best_params.

Definition select_least_biased_model : Py E E :=
  self <- get_self ;;
  best <- lift (py_min bias (results_ self)) ;;
  let best_params := params best in
  _retrain_model best_params.

Definition select_balanced_model (threshold : Z) : Py E E :=
  self <- get_self ;;
  let top_accurate_models :=
    slice_to threshold (sorted_reverse accuracy (results_ self)) in
  best <- lift (py_min bias top_accurate_models) ;;
  let best_params := params best in
  _retrain_model best_params.

(** The body is [pass]: the method returns [None]. *)
Definition find_optimum_model (margin : Q) : Py E unit :=
  ret tt.
End Methods.

(** ** A recording fake of the collaborators

    A small deterministic estimator and metric pair, used to run the
    methods on concrete inputs. *)
Module Fake.
Local Open Scope string_scope.

Record LinearModel : Type := {
  hyper : Config;
  trained_rows : option nat
}.

Fixpoint lookup_param (p : Config) (name : string) : option pyval :=
  match p with
  | [] => None
  | (n, v) :: p' => if String.eqb n name then Some v else lookup_param p' name
  end.

Definition pyval_to_Q (v : pyval) : Q :=
  match v with
  | PInt z => inject_Z z
  | PFloat q => q
  | PStr _ => 0%Q
  | PNaN => 0%Q
  end.

Definition known_key (name : string) : bool :=
  String.eqb name "C" || String.eqb name "max_iter".

Definition fake_clone (e : LinearModel) : Result LinearModel :=
  Ok {| hyper := hyper e; trained_rows := None |}.

(** Unknown hyperparameter names are rejected. *)
Definition fake_set_params (e : LinearModel) (p : Config)
  : Result LinearModel :=
  if forallb (fun kv => known_key (fst kv)) p
  then Ok {| hyper := p; trained_rows := trained_rows e |}
  else Raise ValueError.

(** Training rejects a regularisation strength that is not positive. *)
Definition fake_fit (e : LinearModel) (X : DataFrame) (y : Series)
  : Result LinearModel :=
  match lookup_param (hyper e) "C" with
  | Some v =>
      if Qle_bool (pyval_to_Q v) 0
      then Raise ValueError
      else Ok {| hyper := hyper e; trained_rows := Some (nrows X) |}
  | None => Ok {| hyper := hyper e; trained_rows := Some (nrows X) |}
  end.

(** A trained model labels every row 1 when [C >= 1] and 0 otherwise. *)
Definition fake_predict (e : LinearModel) (X : DataFrame) : Result Array :=
  match trained_rows e with
  | None => Raise ValueError
  | Some _ =>
      let label :=
        match lookup_param (hyper e) "C" with
        | Some v => if Qle_bool 1 (pyval_to_Q v) then 1%Z else 0%Z
        | None => 1%Z
        end in
      Ok (repeat (PInt label) (nrows X))
  end.

#[global] Instance linear_model : Estimator LinearModel := {
  clone := fake_clone;
  set_params := fake_set_params;
  model_fit := fake_fit;
  predict := fake_predict
}.

Definition pyval_eqb (a b : pyval) : bool :=
  match a, b with
  | PNaN, _ | _, PNaN => false
  | PStr s, PStr t => String.eqb s t
  | PStr _, _ | _, PStr _ => false
  | _, _ => Qeq_bool (pyval_to_Q a) (pyval_to_Q b)
  end.

Fixpoint count_equal (a b : Array) : nat :=
  match a, b with
  | x :: a', y :: b' => (if pyval_eqb x y then 1 else 0) + count_equal a' b'
  | _, _ => 0
  end.

Definition ratio (n d : nat) : Q :=
  (inject_Z (Z.of_nat n) / inject_Z (Z.of_nat d))%Q.

(** The fraction of predictions equal to the true labels. *)
Definition fake_accuracy_score (y_true : Series) (y_pred : Array)
  : Result Q :=
  if (length (s_values y_true) =? length y_pred)%nat
  then Ok (ratio (count_equal (s_values y_true) y_pred)
                 (length (s_values y_true)))
  else Raise ValueError.

(** The exact mean, standing for [np.mean]. *)
Definition exact_mean (l : list Q) : Q :=
  (fold_right Qplus 0 l / inject_Z (Z.of_nat (length l)))%Q.

(** Rate of predictions equal to 1 among the rows of one group. *)
Fixpoint group_counts (group : pyval) (attr pred : Array) : nat * nat :=
  match attr, pred with
  | a :: attr', p :: pred' =>
      let '(pos, tot) := group_counts group attr' pred' in
      if pyval_eqb a group
      then ((if pyval_eqb p (PInt 1) then 1 else 0) + pos, 1 + tot)
      else (pos, tot)
  | _, _ => (0, 0)
  end.

Definition group_rate (group : pyval) (attr pred : Array) : Q :=
  let '(pos, tot) := group_counts group attr pred in ratio pos tot.

(** The rate of the unprivileged group over that of the privileged
    group. *)
Definition fake_disparate_impact (table : DataFrame)
  (pred_col attr_col : string) (privileged unprivileged : pyval)
  : Result Q :=
  match getitem table pred_col, getitem table attr_col with
  | Ok pred, Ok attr =>
      Ok (group_rate unprivileged (s_values attr) (s_values pred) /
          group_rate privileged (s_values attr) (s_values pred))%Q
  | _, _ => Raise DataError
  end.

#[global] Instance metrics : Metrics := {
  accuracy_score := fake_accuracy_score;
  np_mean := exact_mean;
  calculate_disparate_impact := fake_disparate_impact
}.

Definition base : LinearModel := {| hyper := []; trained_rows := None |}.

(** Six labelled rows; the search uses the first four. *)
Definition sex_column : Array :=
  [PInt 1; PInt 0; PInt 1; PInt 0; PInt 1; PInt 0].
Definition age_column : Array :=
  [PInt 30; PInt 41; PInt 25; PInt 57; PInt 33; PInt 48].
Definition outcome_values : Array :=
  [PInt 1; PInt 0; PInt 1; PInt 1; PInt 0; PInt 1].

Definition full_df : DataFrame :=
  {| index := [0; 1; 2; 3; 4; 5]%Z;
     columns := [("age", age_column); ("sex", sex_column);
                 ("outcome", outcome_values)] |}.

Definition X_train : DataFrame :=
  {| index := [0; 1; 2; 3]%Z;
     columns := [("age", firstn 4 age_column);
                 ("sex", firstn 4 sex_column)] |}.

Definition y_train : Series :=
  {| s_index := [0; 1; 2; 3]%Z; s_values := firstn 4 outcome_values |}.

Definition search (grid : ParamGrid) : BiasAwareGridSearchCV LinearModel :=
  __init__ base grid full_df "outcome" "sex" (PInt 1) (PInt 0) 2.

Definition start (grid : ParamGrid) : World LinearModel :=
  {| this := search grid; calls := [] |}.

Definition grid_C : ParamGrid := [("C", [PFloat (1 # 10); PInt 1])].


Definition grid_2x2 : ParamGrid :=
  [("max_iter", [PInt 10; PInt 20]); ("C", [PInt 1; PInt 2])].

Definition with_results (rs : list EvalRecord) : World LinearModel :=
  {| this := set_results (search grid_C) rs; calls := [] |}.

(** Two records that tie on bias; the second is the more accurate. *)
Definition rec_a : EvalRecord :=
  {| params := [("C", PInt 1)]; accuracy := 1 # 2; bias := 1 # 10 |}.
Definition rec_b : EvalRecord :=
  {| params := [("C", PInt 2)]; accuracy := 9 # 10; bias := 1 # 10 |}.
Definition tied_records : list EvalRecord := [rec_a; rec_b].

(** Three records; the first two tie on accuracy. *)
Definition rec_c : EvalRecord :=
  {| params := [("C", PInt 3)]; accuracy := 7 # 10; bias := 1 # 20 |}.
Definition rec_d : EvalRecord :=
  {| params := [("C", PInt 4)]; accuracy := 7 # 10; bias := 1 # 5 |}.
Definition mixed_records : list EvalRecord := [rec_d; rec_c; rec_b].
End Fake.

(** * Vocabulary of the properties *)

Section OrderVocabulary.
Context {A : Type} (key : A -> Q).

(** [m] sits in [l] at the first position where the key is maximal. *)
Definition first_max (l : list A) (m : A) : Prop :=
  exists pre post,
    l = pre ++ m :: post /\
    Forall (fun x => key x < key m)%Q pre /\
    Forall (fun x => key x <= key m)%Q post.

(** [m] sits in [l] at the first position where the key is minimal. *)
Definition first_min (l : list A) (m : A) : Prop :=
  exists pre post,
    l = pre ++ m :: post /\
    Forall (fun x => key m < key x)%Q pre /\
    Forall (fun x => key m <= key x)%Q post.

(** Keys never increase along the list. *)
Definition descending (l : list A) : Prop :=
  forall i j a b, i < j -> nth_error l i = Some a -> nth_error l j = Some b ->
                  (key b <= key a)%Q.
End OrderVocabulary.

Section SearchVocabulary.
Context {E : Type} `{Estimator E} {metrics : Metrics}.

(** Evaluating the fold for configuration [p] measures accuracy [a] and
    bias [b]. *)
Definition fold_measured (self : BiasAwareGridSearchCV E)
  (X_train : DataFrame) (y_train : Series) (p : Config)
  (fold : list nat * list nat) (a b : Q) : Prop :=
  exists w1 w2,
    evaluate_fold self X_train y_train p ([], []) fold w1 =
    (Ok ([a], [b]), w2).

Definition measured_all (self : BiasAwareGridSearchCV E)
  (X_train : DataFrame) (y_train : Series) (p : Config)
  (folds : list (list nat * list nat)) (ms : list (Q * Q)) : Prop :=
  Forall2 (fun fold m => fold_measured self X_train y_train p fold
                                       (fst m) (snd m)) folds ms.

(** Record [r] is what a successful evaluation of configuration [p]
    appends: the means over the measurements of all folds. *)
Definition evaluated (self : BiasAwareGridSearchCV E)
  (X_train : DataFrame) (y_train : Series) (kf : KFold) (p : Config)
  (r : EvalRecord) : Prop :=
  params r = p /\
  exists folds ms,
    split kf (nrows X_train) = Ok folds /\
    measured_all self X_train y_train p folds ms /\
    accuracy r = np_mean (map fst ms) /\
    bias r = np_mean (map snd ms).

(** Consecutive calls of [fit] on the same object. *)
Definition fit_all (runs : list (DataFrame * Series)) : Py E unit :=
  for_each runs (fun run => fit (fst run) (snd run)).

(** The training call of a retraining with configuration [p]: the clone
    of the base estimator, configured with [p], is fitted on the stored
    dataset without its outcome column, with the outcome column as
    target. *)
Definition retrains_on_dataset (p : Config) (w w' : World E) (m : E) : Prop :=
  exists e1 e2 features target,
    clone (estimator (this w)) = Ok e1 /\
    set_params e1 p = Ok e2 /\
    drop_columns (df (this w)) (outcome_column (this w)) = Ok features /\
    getitem (df (this w)) (outcome_column (this w)) = Ok target /\
    model_fit e2 features target = Ok m /\
    calls w' = calls w ++ [CClone (estimator (this w)); CSetParams e1 p;
                           CFit e2 features target] /\
    this w' = this w.

(** The records the balanced policy chooses among. *)
Definition top_accurate_models (threshold : Z) (w : World E)
  : list EvalRecord :=
  slice_to threshold (sorted_reverse accuracy (results_ (this w))).

(** A policy that, whenever it returns a model, has selected a stored
    record and fitted a configured clone of the base estimator on the
    whole stored dataset: all its rows, every column but the outcome as
    features, the outcome column as target. *)
Definition ends_by_full_retraining (policy : Py E E) (w : World E) : Prop :=
  forall m w',
    policy w = (Ok m, w') ->
    exists r e1 e2 features target,
      In r (results_ (this w)) /\
      clone (estimator (this w)) = Ok e1 /\
      set_params e1 (params r) = Ok e2 /\
      drop_columns (df (this w)) (outcome_column (this w)) = Ok features /\
      model_fit e2 features target = Ok m /\
      calls w' = calls w ++ [CClone (estimator (this w));
                             CSetParams e1 (params r);
                             CFit e2 features target] /\
      nrows features = nrows (df (this w)) /\
      ~ In (outcome_column (this w)) (column_names features) /\
      (forall other, other <> outcome_column (this w) ->
         lookup_column (columns features) other =
         lookup_column (columns (df (this w))) other) /\
      getitem (df (this w)) (outcome_column (this w)) = Ok target.
End SearchVocabulary.

Section FurtherVocabulary.
Context {E : Type} `{Estimator E} {metrics : Metrics}.

(** The world after the estimator calls [new] were logged. *)
Definition logged (w : World E) (new : list (Call E)) : World E :=
  {| this := this w; calls := calls w ++ new |}.

(** A policy that leaves the object as it found it and makes at most
    three estimator calls, none of them a prediction. *)
Definition leaves_object_alone (policy : Py E E) (w : World E) : Prop :=
  this (snd (policy w)) = this w /\
  exists new,
    calls (snd (policy w)) = calls w ++ new /\
    length new <= 3 /\
    forall e X, ~ In (CPredict e X) new.

(** The four estimator calls of one fold for configuration [p]: the
    base estimator is cloned, the clone is configured with [p], fitted
    on the rows of the fold's training indices and asked to predict
    the rows of the fold's validation indices. *)
Definition fold_calls (self : BiasAwareGridSearchCV E)
  (X_train : DataFrame) (y_train : Series) (p : Config)
  (fold : list nat * list nat) (block : list (Call E)) : Prop :=
  exists X_train_fold y_train_fold X_val_fold e1 e2 e3,
    iloc X_train (fst fold) = Ok X_train_fold /\
    iloc_series y_train (fst fold) = Ok y_train_fold /\
    iloc X_train (snd fold) = Ok X_val_fold /\
    clone (estimator self) = Ok e1 /\
    set_params e1 p = Ok e2 /\
    model_fit e2 X_train_fold y_train_fold = Ok e3 /\
    block = [CClone (estimator self); CSetParams e1 p;
             CFit e2 X_train_fold y_train_fold; CPredict e3 X_val_fold].

(** Each policy either fails in its selection step, touching nothing,
    or hands the configuration of a stored record to [_retrain_model]. *)
Definition selects_then_retrains (policy : Py E E) (w : World E) : Prop :=
  policy w = (Raise ValueError, w) \/
  exists r, In r (results_ (this w)) /\
            policy w = _retrain_model (params r) w.

End FurtherVocabulary.

(** Further concrete inputs. *)
Module Cases.
Import Fake.
Local Open Scope string_scope.

(** A training table with a single row. *)
Definition one_row : DataFrame :=
  {| index := [0%Z]; columns := [("age", [PInt 30]); ("sex", [PInt 1])] |}.

Definition one_outcome : Series :=
  {| s_index := [0%Z]; s_values := [PInt 1] |}.

(** A training table without the protected attribute. *)
Definition no_sex : DataFrame :=
  {| index := [0; 1; 2; 3]%Z; columns := [("age", firstn 4 age_column)] |}.

(** A stored dataset without the outcome column. *)
Definition no_outcome_df : DataFrame :=
  {| index := [0; 1; 2; 3; 4; 5]%Z;
     columns := [("age", age_column); ("sex", sex_column)] |}.

Definition no_outcome_world : World LinearModel :=
  {| this :=
       set_results
         (__init__ base grid_C no_outcome_df "outcome" "sex" (PInt 1)
                   (PInt 0) 2)
         mixed_records;
     calls := [] |}.
End Cases.

(** * Properties *)

(** The loop bodies stay folded under [simpl]. *)
Arguments evaluate_fold : simpl never.
Arguments evaluate_config : simpl never.

(** Case analysis on every step of a sequence of binds. *)
Ltac step_binds H :=
  repeat match type of H with
         | context [match ?x with _ => _ end] => destruct x eqn:?
         end.

Ltac split_pairs :=
  repeat match goal with
         | Hp : (_, _) = (_, _) |- _ => inversion Hp; clear Hp; subst
         end.

(** ** The monad *)

Lemma bind_inv {S A B} (c : M S A) (k : A -> M S B) s r s2 :
  bind c k s = (r, s2) ->
  (exists a s1, c s = (Ok a, s1) /\ k a s1 = (r, s2)) \/
  (exists e, c s = (Raise e, s2) /\ r = Raise e).
Proof.
  unfold bind; destruct (c s) as [[a | e] s1]; intros Hk.
  - left; eauto.
  - right; inversion Hk; subst; eauto.
Qed.

Lemma for_fold_total {S X B} (body : B -> X -> M S B) :
  (forall b x s, exists b' s', body b x s = (Ok b', s')) ->
  forall xs b s, exists b' s', for_fold xs body b s = (Ok b', s').
Proof.
  intros Hbody; induction xs as [| x xs IH]; intros b s; simpl.
  - eexists _, _; reflexivity.
  - unfold bind; destruct (Hbody b x s) as (b' & s' & ->); apply IH.
Qed.

Lemma for_each_total {S X} (body : X -> M S unit) :
  (forall x s, exists s', body x s = (Ok tt, s')) ->
  forall xs s, exists s', for_each xs body s = (Ok tt, s').
Proof.
  intros Hbody; induction xs as [| x xs IH]; intros s; simpl.
  - eexists; reflexivity.
  - unfold bind; destruct (Hbody x s) as (s' & ->); apply IH.
Qed.

Lemma lift_inv {S A} (x : Result A) (s : S) r s' :
  lift x s = (r, s') -> x = r /\ s' = s.
Proof. unfold lift; intros Hl; inversion Hl; auto. Qed.

(** ** Comparisons of scores *)

Lemma Qltb_spec (x y : Q) : BoolSpec (x < y)%Q (y <= x)%Q (Qltb x y).
Proof.
  unfold Qltb; destruct (x ?= y)%Q eqn:Hc; constructor.
  - apply Qeq_alt in Hc; rewrite Hc; apply Qle_refl.
  - now apply Qlt_alt.
  - apply Qlt_le_weak; now apply Qgt_alt in Hc.
Qed.

Lemma Qltb_opp (x y : Q) : Qltb (- x) (- y) = Qltb y x.
Proof.
  destruct (Qltb_spec (- x) (- y)), (Qltb_spec y x); auto; lra.
Qed.

(** ** [max], [min] and [sorted] *)

Section BuiltinFacts.
Context {A : Type} (key : A -> Q).

Lemma first_max_In l m : first_max key l m -> In m l.
Proof.
  intros (pre & post & -> & _); apply in_elt.
Qed.

Lemma first_max_upper l m x :
  first_max key l m -> In x l -> (key x <= key m)%Q.
Proof.
  intros (pre & post & -> & Hpre & Hpost) Hx.
  rewrite Forall_forall in Hpre, Hpost.
  apply in_app_or in Hx; destruct Hx as [Hx | [<- | Hx]].
  - apply Qlt_le_weak; auto.
  - apply Qle_refl.
  - auto.
Qed.

Lemma first_max_unique l m m' :
  first_max key l m -> first_max key l m' -> m = m'.
Proof.
  intros (pre & post & -> & Hpre & Hpost) (pre' & post' & Heq & Hpre' & Hpost').
  revert pre' Heq Hpre'.
  induction pre as [| a pre IH]; intros [| a' pre'] Heq Hpre'; simpl in Heq.
  - now inversion Heq.
  - inversion Heq; subst a'.
    assert (key m' <= key m)%Q.
    { rewrite Forall_forall in Hpost; apply Hpost; subst post; apply in_elt. }
    inversion Hpre'; subst; lra.
  - inversion Heq; subst a.
    assert (key m <= key m')%Q.
    { rewrite Forall_forall in Hpost'; apply Hpost'; subst post'; apply in_elt. }
    inversion Hpre; subst; lra.
  - inversion Heq; subst a'.
    inversion Hpre; inversion Hpre'; subst; eauto.
Qed.

Lemma max_from_first_max (l : list A) :
  forall best, first_max key (best :: l) (max_from key best l).
Proof.
  induction l as [| x l IH]; intros best; simpl.
  - exists [], []; auto.
  - destruct (Qltb_spec (key best) (key x)) as [Hlt | Hge].
    + generalize (IH x); generalize (max_from key x l); intros m.
      intros (pre & post & Heq & Hpre & Hpost).
      exists (best :: pre), post; split; [simpl; now rewrite Heq |].
      split; auto; constructor; auto.
      destruct pre as [| a pre]; simpl in Heq; inversion Heq; subst; auto.
      inversion Hpre; subst; lra.
    + generalize (IH best); generalize (max_from key best l); intros m.
      intros (pre & post & Heq & Hpre & Hpost).
      destruct pre as [| a pre]; simpl in Heq; inversion Heq; subst.
      * exists [], (x :: post); split; [| split]; auto.
      * exists (a :: x :: pre), post; split; [reflexivity |].
        split; auto. inversion Hpre; subst.
        constructor; auto; constructor; auto; lra.
Qed.

Lemma py_max_first_max l :
  l <> [] -> exists m, py_max key l = Ok m /\ first_max key l m.
Proof.
  destruct l as [| x l]; [congruence | intros _].
  exists (max_from key x l); split; auto using max_from_first_max.
Qed.

(** The stable descending sort starts with the first maximum. *)
Lemma sorted_reverse_head l :
  l <> [] ->
  exists m tl, sorted_reverse key l = m :: tl /\ first_max key l m.
Proof.
  induction l as [| x l IH]; [congruence | intros _].
  destruct l as [| y l].
  - exists x, []; split; auto. exists [], []; auto.
  - destruct IH as (m & tl & Hs & Hm); [discriminate |].
    change (sorted_reverse key (x :: y :: l))
      with (insert_desc key x (sorted_reverse key (y :: l))).
    rewrite Hs; simpl.
    destruct (Qltb_spec (key x) (key m)) as [Hlt | Hge].
    + eexists _, _; split; [reflexivity |].
      destruct Hm as (pre & post & Heq & Hpre & Hpost).
      exists (x :: pre), post; rewrite Heq; auto.
    + eexists _, _; split; [reflexivity |].
      exists [], (y :: l); split; [reflexivity | split; auto].
      apply Forall_forall; intros z Hz.
      assert (key z <= key m)%Q by (eapply first_max_upper; eauto); lra.
Qed.
End BuiltinFacts.

Section MinFacts.
Context {A : Type} (key : A -> Q).

Lemma min_from_as_max (l : list A) :
  forall best, min_from key best l = max_from (fun x => - key x)%Q best l.
Proof.
  induction l as [| x l IH]; intros best; simpl; auto.
  now rewrite Qltb_opp, IH.
Qed.

Lemma first_min_as_max l m :
  first_max (fun x => - key x)%Q l m -> first_min key l m.
Proof.
  intros (pre & post & Heq & Hpre & Hpost).
  exists pre, post; split; auto; split.
  - eapply Forall_impl; [| exact Hpre]; simpl; intros; lra.
  - eapply Forall_impl; [| exact Hpost]; simpl; intros; lra.
Qed.

Lemma py_min_first_min l :
  l <> [] -> exists m, py_min key l = Ok m /\ first_min key l m.
Proof.
  destruct l as [| x l]; [congruence | intros _].
  exists (min_from key x l); split; auto.
  rewrite min_from_as_max.
  apply first_min_as_max, max_from_first_max.
Qed.

Lemma first_min_In l m : first_min key l m -> In m l.
Proof.
  intros (pre & post & -> & _); apply in_elt.
Qed.

Lemma first_min_lower l m x :
  first_min key l m -> In x l -> (key m <= key x)%Q.
Proof.
  intros (pre & post & -> & Hpre & Hpost) Hx.
  rewrite Forall_forall in Hpre, Hpost.
  apply in_app_or in Hx; destruct Hx as [Hx | [<- | Hx]].
  - apply Qlt_le_weak; auto.
  - apply Qle_refl.
  - auto.
Qed.
End MinFacts.

Section SortFacts.
Context {A : Type} (key : A -> Q).

Lemma insert_desc_perm x l : Permutation (insert_desc key x l) (x :: l).
Proof.
  induction l as [| y l IH]; simpl; auto.
  destruct (Qltb (key x) (key y)); auto.
  rewrite IH; apply perm_swap.
Qed.

Lemma sorted_reverse_perm l : Permutation (sorted_reverse key l) l.
Proof.
  induction l as [| x l IH]; simpl; auto.
  rewrite insert_desc_perm; auto.
Qed.

Lemma sorted_reverse_length l : length (sorted_reverse key l) = length l.
Proof. apply Permutation_length, sorted_reverse_perm. Qed.

Lemma sorted_reverse_In l x : In x (sorted_reverse key l) <-> In x l.
Proof.
  split; apply Permutation_in;
    [| apply Permutation_sym]; apply sorted_reverse_perm.
Qed.

Lemma descending_cons a l :
  Forall (fun b => key b <= key a)%Q l -> descending key l ->
  descending key (a :: l).
Proof.
  intros Hall Hl [| i] [| j] x y Hij Hx Hy; try lia; simpl in *.
  - inversion Hx; subst x.
    rewrite Forall_forall in Hall; apply Hall.
    eapply nth_error_In; eauto.
  - apply (Hl i j); auto; lia.
Qed.

Lemma descending_inv a l :
  descending key (a :: l) ->
  Forall (fun b => key b <= key a)%Q l /\ descending key l.
Proof.
  intros Hd; split.
  - apply Forall_forall; intros b Hb.
    apply In_nth_error in Hb; destruct Hb as [j Hj].
    apply (Hd 0 (S j)); auto; lia.
  - intros i j x y Hij Hx Hy; apply (Hd (S i) (S j)); auto; lia.
Qed.

Lemma insert_desc_descending x l :
  descending key l -> descending key (insert_desc key x l).
Proof.
  induction l as [| y l IH]; intros Hd; simpl.
  - apply descending_cons; auto.
  - apply descending_inv in Hd; destruct Hd as [Hall Hd].
    destruct (Qltb_spec (key x) (key y)) as [Hlt | Hge].
    + apply descending_cons; auto.
      apply Forall_forall; intros b Hb.
      apply (Permutation_in _ (insert_desc_perm x l)) in Hb.
      destruct Hb as [<- | Hb]; [lra |].
      rewrite Forall_forall in Hall; auto.
    + apply descending_cons; [| apply descending_cons; auto].
      constructor; auto.
      eapply Forall_impl; [| exact Hall]; simpl; intros; lra.
Qed.

Lemma sorted_reverse_descending l :
  descending key (sorted_reverse key l).
Proof.
  induction l as [| x l IH]; simpl.
  - intros i j a b _ Ha; destruct i; discriminate.
  - now apply insert_desc_descending.
Qed.

(** Stability: the items of any one key keep their original order. *)
Lemma insert_desc_stable q x l :
  filter (fun a => Qeq_bool (key a) q) (insert_desc key x l) =
  filter (fun a => Qeq_bool (key a) q) (x :: l).
Proof.
  induction l as [| y l IH]; auto.
  simpl insert_desc.
  destruct (Qltb_spec (key x) (key y)) as [Hlt | Hge]; auto.
  simpl in *; rewrite IH.
  destruct (Qeq_bool (key x) q) eqn:Hx, (Qeq_bool (key y) q) eqn:Hy; auto.
  apply Qeq_bool_iff in Hx, Hy; lra.
Qed.

Lemma sorted_reverse_stable q l :
  filter (fun a => Qeq_bool (key a) q) (sorted_reverse key l) =
  filter (fun a => Qeq_bool (key a) q) l.
Proof.
  induction l as [| x l IH]; auto.
  simpl sorted_reverse; rewrite insert_desc_stable; simpl; now rewrite IH.
Qed.

Lemma slice_to_In (stop : Z) (l : list A) x : In x (slice_to stop l) -> In x l.
Proof.
  unfold slice_to; intros Hin.
  destruct (stop <? 0)%Z;
    match type of Hin with
    | In _ (firstn ?n _) => rewrite <- (firstn_skipn n l)
    end; apply in_or_app; auto.
Qed.

Lemma slice_to_zero (l : list A) : slice_to 0 l = [].
Proof. reflexivity. Qed.

Lemma slice_to_one (x : A) l : slice_to 1 (x :: l) = [x].
Proof. reflexivity. Qed.

Lemma slice_to_all (stop : Z) (l : list A) :
  (Z.of_nat (length l) <= stop)%Z -> slice_to stop l = l.
Proof.
  intros Hle; unfold slice_to.
  destruct (stop <? 0)%Z eqn:Hneg; [lia |].
  apply firstn_all2; lia.
Qed.
End SortFacts.

(** ** The fold splitter and the grid *)

Lemma KFold_init_ok (n : Z) kf :
  KFold_init n = Ok kf -> (1 < n)%Z /\ n_splits kf = Z.to_nat n.
Proof.
  unfold KFold_init; destruct (n <=? 1)%Z eqn:Hn; [discriminate |].
  intros Hk; inversion Hk; simpl; lia.
Qed.

Lemma test_folds_length sizes : forall start,
  length (test_folds start sizes) = length sizes.
Proof.
  induction sizes as [| s sizes IH]; intros start; simpl; auto.
Qed.

(** A successful split yields as many folds as the splitter was built
    for. *)
Lemma split_length kf n folds :
  split kf n = Ok folds -> length folds = n_splits kf.
Proof.
  unfold split; destruct (n <? n_splits kf); [discriminate |].
  intros Hs; inversion Hs.
  rewrite length_map, test_folds_length.
  unfold fold_sizes; now rewrite length_map, length_seq.
Qed.

Lemma product_length {V} (values : list (list V)) :
  length (product values) = fold_right (fun vs n => length vs * n) 1 values.
Proof.
  induction values as [| vs rest IH]; simpl; auto.
  rewrite <- IH; clear IH.
  induction vs as [| v vs IHv]; simpl; auto.
  now rewrite length_app, length_map, IHv.
Qed.

Lemma grid_size_insert_item x (g : ParamGrid) :
  grid_size (insert_item x g) = length (snd x) * grid_size g.
Proof.
  induction g as [| y g IH]; simpl; auto.
  destruct (String.ltb (fst y) (fst x)); simpl; auto.
  rewrite IH; lia.
Qed.

Lemma grid_size_sorted_items (g : ParamGrid) :
  grid_size (sorted_items g) = grid_size g.
Proof.
  induction g as [| x g IH]; simpl; auto.
  now rewrite grid_size_insert_item, IH.
Qed.

(** The enumeration has the size of the Cartesian product. *)
Lemma grid_configs_length (g : ParamGrid) :
  length (grid_configs g) = grid_size g.
Proof.
  unfold grid_configs; rewrite length_map, product_length.
  rewrite <- grid_size_sorted_items.
  induction (sorted_items g) as [| x l IH]; simpl; auto.
Qed.

Lemma ParameterGrid_ok (g : ParamGrid) cfgs :
  ParameterGrid g = Ok cfgs -> cfgs = grid_configs g.
Proof.
  unfold ParameterGrid; destruct (existsb _ g); [discriminate |].
  now intros Hp; inversion Hp.
Qed.

Lemma grid_size_pos (g : ParamGrid) :
  existsb (fun kv => match snd kv with [] => true | _ => false end) g = false ->
  0 < grid_size g.
Proof.
  induction g as [| [k vs] g IH]; simpl; [lia |].
  destruct vs as [| v vs]; simpl; [discriminate |].
  intros Hg; specialize (IH Hg); lia.
Qed.

(** A grid that is accepted yields at least one configuration. *)
Lemma ParameterGrid_nonempty (g : ParamGrid) cfgs :
  ParameterGrid g = Ok cfgs -> cfgs <> [].
Proof.
  unfold ParameterGrid; destruct (existsb _ g) eqn:Hg; [discriminate |].
  intros Hp; inversion Hp; subst; intros Hnil.
  apply grid_size_pos in Hg.
  rewrite <- grid_configs_length, Hnil in Hg; simpl in Hg; lia.
Qed.

Lemma ParameterGrid_raises (g : ParamGrid) e :
  ParameterGrid g = Raise e -> e = ValueError.
Proof.
  unfold ParameterGrid; destruct (existsb _ g); intros Hp; now inversion Hp.
Qed.

(** ** The evaluation loops *)

Lemma set_results_same {E} (self : BiasAwareGridSearchCV E) :
  set_results self (results_ self ++ []) = self.
Proof. destruct self; unfold set_results; simpl; now rewrite app_nil_r. Qed.

Lemma set_results_app {E} (self : BiasAwareGridSearchCV E) rs1 rs2 :
  set_results (set_results self (results_ self ++ rs1))
              (results_ (set_results self (results_ self ++ rs1)) ++ rs2) =
  set_results self (results_ self ++ rs1 ++ rs2).
Proof. unfold set_results; simpl; now rewrite app_assoc. Qed.

Section Evaluation.
Context {E : Type} `{Estimator E} {metrics : Metrics}.
Variables (self : BiasAwareGridSearchCV E) (X_train : DataFrame)
          (y_train : Series).

Lemma evaluate_fold_this p acc fold w r w' :
  evaluate_fold self X_train y_train p acc fold w = (r, w') ->
  this w' = this w.
Proof.
  unfold evaluate_fold, call_clone, call_set_params, call_fit, call_predict,
    record_call, bind, lift, modify, ret.
  destruct acc as [accs bs], fold as [tr va]; intros Hr.
  step_binds Hr; split_pairs; reflexivity.
Qed.

Lemma evaluate_fold_ok p accs bs fold w accs' bs' w' :
  evaluate_fold self X_train y_train p (accs, bs) fold w =
  (Ok (accs', bs'), w') ->
  exists a b, accs' = accs ++ [a] /\ bs' = bs ++ [b] /\
              fold_measured self X_train y_train p fold a b.
Proof.
  unfold fold_measured, evaluate_fold, call_clone, call_set_params, call_fit,
    call_predict, record_call, bind, lift, modify, ret.
  destruct fold as [tr va]; intros Hr.
  step_binds Hr; split_pairs.
  eexists _, _; split; [reflexivity | split; [reflexivity |]].
  exists w; eexists.
  repeat match goal with
         | Hp : ?x = _ |- context [?x] => rewrite Hp
         end.
  reflexivity.
Qed.
Lemma for_fold_evaluate p folds : forall accs bs w r w',
  for_fold folds (evaluate_fold self X_train y_train p) (accs, bs) w =
  (r, w') ->
  this w' = this w /\
  forall accs' bs', r = Ok (accs', bs') ->
    exists ms, measured_all self X_train y_train p folds ms /\
               accs' = accs ++ map fst ms /\ bs' = bs ++ map snd ms.
Proof.
  induction folds as [| fold folds IH]; intros accs bs w r w' Hr; simpl in Hr.
  - inversion Hr; subst; split; auto.
    intros accs' bs' Hok; inversion Hok; subst.
    exists []; simpl; rewrite !app_nil_r; repeat split; constructor.
  - apply bind_inv in Hr.
    destruct Hr as [([accs1 bs1] & w1 & Hfold & Hrest) | (e & Hfold & ->)].
    + assert (Hthis : this w1 = this w)
        by (eapply evaluate_fold_this; eauto).
      apply evaluate_fold_ok in Hfold.
      destruct Hfold as (a & b & -> & -> & Hm).
      apply IH in Hrest; destruct Hrest as [Hthis' Hrest].
      split; [congruence |].
      intros accs' bs' Hok.
      destruct (Hrest _ _ Hok) as (ms & Hms & -> & ->).
      exists ((a, b) :: ms); simpl; rewrite <- !app_assoc.
      repeat split; auto; constructor; auto.
    + split; [eapply evaluate_fold_this; eauto | discriminate].
Qed.

Lemma evaluate_config_inv kf p w r w' :
  evaluate_config self kf X_train y_train p w = (r, w') ->
  match r with
  | Ok _ =>
      exists rec,
        evaluated self X_train y_train kf p rec /\
        this w' = set_results (this w) (results_ (this w) ++ [rec])
  | Raise _ => this w' = this w
  end.
Proof.
  unfold evaluate_config; intros Hr.
  apply bind_inv in Hr.
  destruct Hr as [(folds & w1 & Hsplit & Hr) | (e & Hsplit & ->)];
    apply lift_inv in Hsplit; destruct Hsplit as [Hsplit ->]; auto.
  apply bind_inv in Hr.
  destruct Hr as [([accs bs] & w2 & Hloop & Hr) | (e & Hloop & ->)];
    apply for_fold_evaluate in Hloop; destruct Hloop as [Hthis Hloop]; auto.
  destruct (Hloop _ _ eq_refl) as (ms & Hms & -> & ->).
  unfold results_append, modify in Hr; inversion Hr; subst; simpl.
  rewrite Hthis; eexists; split; [| reflexivity].
  unfold evaluated; simpl; split; [reflexivity |].
  exists folds, ms; auto.
Qed.

(** The loop over the configurations: the records of the
    configurations evaluated so far are appended in order, and an
    exception stops the loop at the configuration that raised it. *)
Lemma for_each_configs kf cfgs : forall w r w',
  for_each cfgs (evaluate_config self kf X_train y_train) w = (r, w') ->
  exists done recs,
    Forall2 (evaluated self X_train y_train kf) done recs /\
    this w' = set_results (this w) (results_ (this w) ++ recs) /\
    match r with
    | Ok _ => done = cfgs
    | Raise e =>
        exists c rest w1 w2,
          cfgs = done ++ c :: rest /\
          evaluate_config self kf X_train y_train c w1 = (Raise e, w2)
    end.
Proof.
  induction cfgs as [| c cfgs IH]; intros w r w' Hr; simpl in Hr.
  - inversion Hr; subst; exists [], []; repeat split; auto.
    now rewrite set_results_same.
  - apply bind_inv in Hr.
    destruct Hr as [([] & w1 & Hc & Hrest) | (e & Hc & ->)].
    + apply evaluate_config_inv in Hc.
      destruct Hc as (rec & Hrec & Hthis).
      apply IH in Hrest.
      destruct Hrest as (done & recs & Hdone & Hthis' & Hr).
      exists (c :: done), (rec :: recs); split; [constructor; auto |].
      split.
      * rewrite Hthis', Hthis.
        now rewrite (set_results_app (this w) [rec] recs).
      * destruct r as [[] | e]; [now subst |].
        destruct Hr as (c' & rest & w2 & w3 & -> & Hraise).
        exists c', rest, w2, w3; auto.
    + exists [], []; split; [constructor |].
      apply evaluate_config_inv in Hc as Hthis; simpl in Hthis.
      rewrite Hthis, set_results_same; split; auto.
      exists c, cfgs, w, w'; auto.
Qed.
End Evaluation.

Section Fit.
Context {E : Type} `{Estimator E} {metrics : Metrics}.

(** What one call of [fit] does to the object, whatever its outcome. *)
Lemma fit_inv X_train y_train (w : World E) r w' :
  fit X_train y_train w = (r, w') ->
  exists done recs,
    this w' = set_results (this w) (results_ (this w) ++ recs) /\
    map params recs = done /\
    match r with
    | Ok _ =>
        done = grid_configs (param_grid (this w)) /\
        exists kf, KFold_init (cv (this w)) = Ok kf /\
                   Forall2 (evaluated (this w) X_train y_train kf) done recs
    | Raise e =>
        (recs = [] /\
         (KFold_init (cv (this w)) = Raise e \/
          ParameterGrid (param_grid (this w)) = Raise e)) \/
        (exists kf c rest w1 w2,
            KFold_init (cv (this w)) = Ok kf /\
            Forall2 (evaluated (this w) X_train y_train kf) done recs /\
            grid_configs (param_grid (this w)) = done ++ c :: rest /\
            evaluate_config (this w) kf X_train y_train c w1 = (Raise e, w2))
    end.
Proof.
  unfold fit; intros Hr.
  change (bind get_self ?k w) with (k (this w) w) in Hr; cbv beta in Hr.
  apply bind_inv in Hr.
  destruct Hr as [(kf & w1 & Hkf & Hr) | (e & Hkf & ->)];
    apply lift_inv in Hkf; destruct Hkf as [Hkf ->].
  2:{ exists [], []; rewrite set_results_same; repeat split; auto. }
  apply bind_inv in Hr.
  destruct Hr as [(cfgs & w1 & Hg & Hr) | (e & Hg & ->)];
    apply lift_inv in Hg; destruct Hg as [Hg ->].
  2:{ exists [], []; rewrite set_results_same; repeat split; auto. }
  apply ParameterGrid_ok in Hg; subst cfgs.
  apply for_each_configs in Hr.
  destruct Hr as (done & recs & Hdone & Hthis & Hr).
  assert (Hmap : map params recs = done).
  { clear - Hdone; induction Hdone as [| c rec done recs [Hp _] _ IH];
      simpl; congruence. }
  exists done, recs; repeat split; auto.
  destruct r as [[] | e].
  - split; eauto.
  - right; destruct Hr as (c & rest & w1 & w2 & Heq & Hraise).
    exists kf, c, rest, w1, w2; auto.
Qed.

Lemma fit_ok_grid X_train y_train (w : World E) w' :
  fit X_train y_train w = (Ok tt, w') ->
  exists cfgs, ParameterGrid (param_grid (this w)) = Ok cfgs.
Proof.
  unfold fit.
  change (bind get_self ?k w) with (k (this w) w); cbv beta.
  unfold bind at 1, lift at 1.
  destruct (KFold_init (cv (this w))); [| discriminate].
  unfold bind at 1, lift at 1.
  destruct (ParameterGrid (param_grid (this w))); [eauto | discriminate].
Qed.

(** [fit] returns normally as soon as the splitter and the grid accept
    their arguments and no fold evaluation raises. *)
Lemma fit_succeeds X_train y_train (w : World E) kf folds cfgs :
  KFold_init (cv (this w)) = Ok kf ->
  ParameterGrid (param_grid (this w)) = Ok cfgs ->
  split kf (nrows X_train) = Ok folds ->
  (forall p acc fold w1,
      exists acc' w2,
        evaluate_fold (this w) X_train y_train p acc fold w1 =
        (Ok acc', w2)) ->
  exists w', fit X_train y_train w = (Ok tt, w').
Proof.
  intros Hkf Hg Hsplit Hfold.
  unfold fit.
  change (bind get_self ?k w) with (k (this w) w); cbv beta.
  rewrite Hkf, Hg; cbn [bind lift].
  apply for_each_total; intros p w1.
  destruct (for_fold_total _ (Hfold p) folds ([], []) w1) as (acc & w2 & Hl).
  unfold evaluate_config, bind, lift; rewrite Hsplit, Hl.
  eexists; reflexivity.
Qed.
End Fit.

(** ** Tables *)

Lemma lookup_column_filter cs name other :
  lookup_column
    (filter (fun c => negb (String.eqb (fst c) name)) cs) other =
  if String.eqb other name then None else lookup_column cs other.
Proof.
  induction cs as [| [n s] cs IH]; simpl.
  - now destruct (String.eqb other name).
  - destruct (String.eqb n name) eqn:Hn; simpl.
    + rewrite IH. destruct (String.eqb other name) eqn:Ho; auto.
      destruct (String.eqb n other) eqn:Hno; auto.
      apply String.eqb_eq in Hn, Hno; subst.
      now rewrite String.eqb_refl in Ho.
    + destruct (String.eqb n other) eqn:Hno; auto.
      apply String.eqb_eq in Hno; subst; now rewrite Hn.
Qed.

Lemma lookup_column_None_names cs name :
  lookup_column cs name = None -> ~ In name (map fst cs).
Proof.
  induction cs as [| [n s] cs IH]; simpl; auto.
  destruct (String.eqb n name) eqn:Hn; [discriminate |].
  intros Hl [-> | Hin]; [now rewrite String.eqb_refl in Hn | now apply IH].
Qed.

(** Dropping a column keeps every row and every other column. *)
Lemma drop_columns_ok d name features :
  drop_columns d name = Ok features ->
  nrows features = nrows d /\
  ~ In name (column_names features) /\
  forall other, other <> name ->
    lookup_column (columns features) other = lookup_column (columns d) other.
Proof.
  unfold drop_columns; destruct (lookup_column (columns d) name);
    [| discriminate].
  intros Hd; inversion Hd; subst; unfold column_names; cbn [nrows columns].
  split; auto; split.
  - apply lookup_column_None_names.
    now rewrite lookup_column_filter, String.eqb_refl.
  - intros other Hne; rewrite lookup_column_filter.
    apply String.eqb_neq in Hne; now rewrite Hne.
Qed.

(** ** Retraining and selection *)

Section Selection.
Context {E : Type} `{Estimator E} {metrics : Metrics}.

Lemma bind_get_self {B} (k : BiasAwareGridSearchCV E -> Py E B) w :
  bind get_self k w = k (this w) w.
Proof. reflexivity. Qed.

Lemma bind_lift_ok {A B} (a : A) (k : A -> Py E B) w :
  bind (lift (Ok a)) k w = k a w.
Proof. reflexivity. Qed.

Lemma bind_lift_raise {A B} e (k : A -> Py E B) w :
  bind (lift (Raise e)) k w = (Raise e, w).
Proof. reflexivity. Qed.

Lemma retrain_model_ok p w m w' :
  _retrain_model p w = (Ok m, w') -> retrains_on_dataset p w w' m.
Proof.
  unfold retrains_on_dataset, _retrain_model, call_clone, call_set_params,
    call_fit, record_call, get_self, bind, lift, modify, ret.
  intros Hr; step_binds Hr; split_pairs.
  simpl in *.
  eexists _, _, _, _; repeat split; eauto.
  simpl; rewrite <- !app_assoc; reflexivity.
Qed.

(** Retraining always begins by cloning the base estimator. *)
Lemma retrain_model_calls p w r w' :
  _retrain_model p w = (r, w') ->
  exists rest, calls w' = calls w ++ CClone (estimator (this w)) :: rest.
Proof.
  unfold _retrain_model, call_clone, call_set_params,
    call_fit, record_call, get_self, bind, lift, modify, ret.
  intros Hr; step_binds Hr; split_pairs;
    simpl; rewrite <- ?app_assoc; simpl; eexists; reflexivity.
Qed.

Lemma select_highest_accuracy_inv w :
  results_ (this w) <> [] ->
  exists r,
    first_max accuracy (results_ (this w)) r /\
    select_highest_accuracy_model w = _retrain_model (params r) w.
Proof.
  intros Hne; destruct (py_max_first_max accuracy Hne) as (m & Hmax & Hm).
  exists m; split; auto.
  unfold select_highest_accuracy_model.
  now rewrite bind_get_self, Hmax, bind_lift_ok.
Qed.

Lemma select_least_biased_inv w :
  results_ (this w) <> [] ->
  exists r,
    first_min bias (results_ (this w)) r /\
    select_least_biased_model w = _retrain_model (params r) w.
Proof.
  intros Hne; destruct (py_min_first_min bias Hne) as (m & Hmin & Hm).
  exists m; split; auto.
  unfold select_least_biased_model.
  now rewrite bind_get_self, Hmin, bind_lift_ok.
Qed.

Lemma select_balanced_inv threshold (w : World E) :
  top_accurate_models threshold w <> [] ->
  exists r,
    first_min bias (top_accurate_models threshold w) r /\
    select_balanced_model threshold w = _retrain_model (params r) w.
Proof.
  intros Hne; destruct (py_min_first_min bias Hne) as (m & Hmin & Hm).
  exists m; split; auto.
  unfold select_balanced_model.
  rewrite bind_get_self; fold (top_accurate_models threshold w).
  now rewrite Hmin, bind_lift_ok.
Qed.

Lemma select_balanced_empty threshold (w : World E) :
  top_accurate_models threshold w = [] ->
  select_balanced_model threshold w = (Raise ValueError, w).
Proof.
  intros Hnil; unfold select_balanced_model.
  rewrite bind_get_self; fold (top_accurate_models threshold w).
  now rewrite Hnil.
Qed.

Lemma top_accurate_models_In threshold (w : World E) r :
  In r (top_accurate_models threshold w) -> In r (results_ (this w)).
Proof.
  unfold top_accurate_models; intros Hin.
  apply (sorted_reverse_In accuracy); eapply slice_to_In; eauto.
Qed.
End Selection.

(** * The search: [fit] *)

Section FitTheorems.
Context {E : Type} `{Estimator E} {metrics : Metrics}.

Lemma fit_all_inv runs : forall (w : World E) w',
  fit_all runs w = (Ok tt, w') ->
  exists recs,
    this w' = set_results (this w) (results_ (this w) ++ recs) /\
    map params recs =
    concat (repeat (grid_configs (param_grid (this w))) (length runs)).
Proof.
  unfold fit_all.
  induction runs as [| [X y] runs IH]; intros w w' Hr; simpl in Hr.
  - inversion Hr; subst; exists []; now rewrite set_results_same.
  - apply bind_inv in Hr.
    destruct Hr as [([] & w1 & Hfit & Hrest) | (e & _ & Hr)];
      [| discriminate].
    apply fit_inv in Hfit.
    destruct Hfit as (done & recs1 & Hthis1 & Hmap1 & -> & _).
    apply IH in Hrest; destruct Hrest as (recs2 & Hthis2 & Hmap2).
    exists (recs1 ++ recs2); split.
    + now rewrite Hthis2, Hthis1, set_results_app.
    + rewrite map_app, Hmap1, Hmap2, Hthis1; reflexivity.
Qed.

(** C1. A successful call of [fit] appends exactly one record per
    configuration of the grid, in the order in which the grid
    enumerates its configurations; their number is the size of the
    Cartesian product of the per-parameter value lists. *)
Theorem fit_appends_one_record_per_configuration
  (X_train : DataFrame) (y_train : Series) (w w' : World E) :
  fit X_train y_train w = (Ok tt, w') ->
  exists recs,
    results_ (this w') = results_ (this w) ++ recs /\
    map params recs = grid_configs (param_grid (this w)) /\
    length recs = grid_size (param_grid (this w)).
Proof.
  intros Hfit; apply fit_inv in Hfit.
  destruct Hfit as (done & recs & Hthis & Hmap & -> & _).
  exists recs; split; [now rewrite Hthis | split; auto].
  now rewrite <- grid_configs_length, <- Hmap, length_map.
Qed.



(** C10. [fit] never clears [results_]: whatever its outcome, the
    records stored before the call are still there, in front.  After
    [k] successful calls on a freshly built object whose grid has [g]
    configurations, [results_] holds [k * g] records: the grid's
    enumeration repeated [k] times. *)
Theorem fit_accumulates_across_calls :
  (forall X_train y_train (w : World E) r w',
      fit X_train y_train w = (r, w') ->
      exists recs, results_ (this w') = results_ (this w) ++ recs) /\
  (forall estimator grid df outcome protected privileged unprivileged cv
          log runs w',
      fit_all runs
        {| this := __init__ estimator grid df outcome protected privileged
                        unprivileged cv;
           calls := log |} = (Ok tt, w') ->
      map params (results_ (this w')) =
      concat (repeat (grid_configs grid) (length runs)) /\
      length (results_ (this w')) = length runs * grid_size grid).
Proof.
  split.
  - intros X_train y_train w r w' Hfit; apply fit_inv in Hfit.
    destruct Hfit as (done & recs & Hthis & _).
    exists recs; now rewrite Hthis.
  - intros est grid d oc pa pv uv k log runs w' Hall.
    apply fit_all_inv in Hall; destruct Hall as (recs & Hthis & Hmap).
    simpl in Hthis, Hmap; rewrite Hthis; simpl; split; auto.
    rewrite <- (length_map params), Hmap.
    clear; induction (length runs) as [| n IH]; simpl; auto.
    now rewrite length_app, IH, grid_configs_length.
Qed.
End FitTheorems.

(** ** The outcomes of retraining and selection *)

Section RetrainCases.
Context {E : Type} `{Estimator E} {metrics : Metrics}.

(** The outcomes of [_retrain_model], step by step. *)
Lemma retrain_model_cases (p : Config) (w : World E) :
  let est := estimator (this w) in
  let d := df (this w) in
  let oc := outcome_column (this w) in
  _retrain_model p w =
  match clone est with
  | Raise e => (Raise e, logged w [CClone est])
  | Ok e1 =>
      match set_params e1 p with
      | Raise e => (Raise e, logged w [CClone est; CSetParams e1 p])
      | Ok e2 =>
          match drop_columns d oc with
          | Raise e => (Raise e, logged w [CClone est; CSetParams e1 p])
          | Ok features =>
              match getitem d oc with
              | Raise e => (Raise e, logged w [CClone est; CSetParams e1 p])
              | Ok target =>
                  (model_fit e2 features target,
                   logged w [CClone est; CSetParams e1 p;
                             CFit e2 features target])
              end
          end
      end
  end.
Proof.
  unfold _retrain_model, call_clone, call_set_params, call_fit, record_call,
    get_self, bind, lift, modify, ret, logged; simpl.
  destruct (clone (estimator (this w))) as [e1 | e]; simpl; auto.
  destruct (set_params e1 p) as [e2 | e]; simpl;
    [| now rewrite <- app_assoc].
  destruct (drop_columns _ _) as [features | e]; simpl;
    [| now rewrite <- app_assoc].
  destruct (getitem _ _) as [target | e]; simpl;
    [| now rewrite <- app_assoc].
  rewrite <- !app_assoc; simpl.
  destruct (model_fit e2 features target); reflexivity.
Qed.

Lemma retrain_model_alone (p : Config) (w : World E) :
  leaves_object_alone (_retrain_model p) w.
Proof.
  unfold leaves_object_alone; rewrite retrain_model_cases; cbv zeta.
  destruct (clone _) as [e1 | e];
    [destruct (set_params e1 p) as [e2 | e];
     [destruct (drop_columns _ _) as [features | e];
      [destruct (getitem _ _) as [target | e] |] |] |];
    (split; [reflexivity |]); eexists; (split; [reflexivity |]);
    (split; [simpl; lia |]);
    intros e0 X0 Hin; simpl in Hin;
    repeat (destruct Hin as [Hin | Hin]; [discriminate |]); exact Hin.
Qed.

Lemma select_highest_accuracy_cases (w : World E) :
  selects_then_retrains select_highest_accuracy_model w.
Proof.
  destruct (results_ (this w)) as [| r0 rs] eqn:Hrs.
  - left; unfold select_highest_accuracy_model.
    now rewrite bind_get_self, Hrs.
  - right.
    assert (Hne : results_ (this w) <> []) by (rewrite Hrs; discriminate).
    destruct (select_highest_accuracy_inv w Hne) as (r & Hmax & Hsel).
    exists r; split; auto.
    eapply first_max_In; eauto.
Qed.

Lemma select_least_biased_cases (w : World E) :
  selects_then_retrains select_least_biased_model w.
Proof.
  destruct (results_ (this w)) as [| r0 rs] eqn:Hrs.
  - left; unfold select_least_biased_model.
    now rewrite bind_get_self, Hrs.
  - right.
    assert (Hne : results_ (this w) <> []) by (rewrite Hrs; discriminate).
    destruct (select_least_biased_inv w Hne) as (r & Hmin & Hsel).
    exists r; split; auto.
    eapply first_min_In; eauto.
Qed.

Lemma select_balanced_cases (threshold : Z) (w : World E) :
  selects_then_retrains (select_balanced_model threshold) w.
Proof.
  destruct (top_accurate_models threshold w) as [| r0 rs] eqn:Htop.
  - left; now apply select_balanced_empty.
  - right.
    assert (Hne : top_accurate_models threshold w <> [])
      by (rewrite Htop; discriminate).
    destruct (select_balanced_inv threshold w Hne) as (r & Hmin & Hsel).
    exists r; split; auto.
    eapply top_accurate_models_In, first_min_In; eauto.
Qed.

Lemma selects_then_retrains_alone policy (w : World E) :
  selects_then_retrains policy w -> leaves_object_alone policy w.
Proof.
  intros [Hraise | (r & _ & Hsel)].
  - unfold leaves_object_alone; rewrite Hraise; simpl; split; auto.
    exists []; rewrite app_nil_r; repeat split; auto.
  - unfold leaves_object_alone; rewrite Hsel.
    apply retrain_model_alone.
Qed.
End RetrainCases.

(** * The selection policies *)

Section SelectionTheorems.
Context {E : Type} `{Estimator E} {metrics : Metrics}.

(** C4. On a non-empty result list the highest-accuracy policy
    retrains with the configuration of the first record, in
    enumeration order, whose accuracy is maximal: every earlier record
    is strictly less accurate and no later record is more accurate. *)
Theorem select_highest_accuracy_picks_first_maximum (w : World E) :
  results_ (this w) <> [] ->
  exists pre r post,
    results_ (this w) = pre ++ r :: post /\
    Forall (fun x => accuracy x < accuracy r)%Q pre /\
    Forall (fun x => accuracy x <= accuracy r)%Q post /\
    select_highest_accuracy_model w = _retrain_model (params r) w.
Proof.
  intros Hne.
  destruct (select_highest_accuracy_inv w Hne)
    as (r & (pre & post & Heq & Hpre & Hpost) & Hsel).
  exists pre, r, post; auto.
Qed.

(** C5. On a non-empty result list the least-bias policy retrains
    with the configuration of a record of minimum bias; of two records
    with biases 0.05 and 0.2, in either order, it takes the one with
    bias 0.05. *)
Theorem select_least_biased_picks_minimum (w : World E) :
  (results_ (this w) <> [] ->
   exists r,
     In r (results_ (this w)) /\
     (forall x, In x (results_ (this w)) -> (bias r <= bias x)%Q) /\
     select_least_biased_model w = _retrain_model (params r) w) /\
  (forall r1 r2,
      (bias r1 == 5 # 100)%Q -> (bias r2 == 2 # 10)%Q ->
      results_ (this w) = [r1; r2] \/ results_ (this w) = [r2; r1] ->
      select_least_biased_model w = _retrain_model (params r1) w).
Proof.
  split.
  - intros Hne.
    destruct (select_least_biased_inv w Hne) as (r & Hmin & Hsel).
    exists r; split; [eapply first_min_In; eauto | split; auto].
    intros x Hx; eapply first_min_lower; eauto.
  - intros r1 r2 Hb1 Hb2 Hrs.
    unfold select_least_biased_model; rewrite bind_get_self.
    destruct Hrs as [-> | ->]; simpl py_min.
    + destruct (Qltb_spec (bias r2) (bias r1)); [lra | reflexivity].
    + destruct (Qltb_spec (bias r1) (bias r2)); [reflexivity | lra].
Qed.

(** C2, as the code has it. With threshold 1 the balanced policy is
    the highest-accuracy policy.  With the number of records as
    threshold it ranks all records by descending accuracy, records of
    equal accuracy keeping their order, and retrains with the first
    record of that ranking whose bias is minimal; the least-bias policy
    retrains with the first record of [results_] whose bias is minimal.
    Both records have the minimum bias, and the two policies choose the
    same configuration whenever all records of minimum bias carry the
    same configuration. *)
Theorem select_balanced_at_extreme_thresholds (w : World E) :
  select_balanced_model 1 w = select_highest_accuracy_model w /\
  (results_ (this w) <> [] ->
   let n := Z.of_nat (length (results_ (this w))) in
   let minimal r :=
     In r (results_ (this w)) /\
     forall x, In x (results_ (this w)) -> (bias r <= bias x)%Q in
   exists ranked r_balanced r_least,
     Permutation ranked (results_ (this w)) /\
     descending accuracy ranked /\
     (forall q,
         filter (fun r => Qeq_bool (accuracy r) q) ranked =
         filter (fun r => Qeq_bool (accuracy r) q) (results_ (this w))) /\
     first_min bias ranked r_balanced /\
     first_min bias (results_ (this w)) r_least /\
     minimal r_balanced /\ minimal r_least /\
     (bias r_balanced == bias r_least)%Q /\
     select_balanced_model n w = _retrain_model (params r_balanced) w /\
     select_least_biased_model w = _retrain_model (params r_least) w /\
     ((forall x y, minimal x -> minimal y -> params x = params y) ->
      select_balanced_model n w = select_least_biased_model w)).
Proof.
  split.
  - destruct (results_ (this w)) as [| r0 rs] eqn:Hrs.
    + unfold select_balanced_model, select_highest_accuracy_model.
      now rewrite !bind_get_self, Hrs.
    + assert (Hne : results_ (this w) <> []) by (rewrite Hrs; discriminate).
      destruct (select_highest_accuracy_inv w Hne) as (r & Hmax & ->).
      destruct (sorted_reverse_head accuracy Hne) as (m & tl & Hsort & Hm).
      rewrite (first_max_unique Hmax Hm).
      unfold select_balanced_model.
      now rewrite bind_get_self, Hsort.
  - intros Hne n minimal.
    assert (Htop : top_accurate_models n w =
                   sorted_reverse accuracy (results_ (this w))).
    { unfold top_accurate_models; apply slice_to_all.
      rewrite sorted_reverse_length; subst n; lia. }
    assert (Hne' : top_accurate_models n w <> []).
    { rewrite Htop; intros Hnil.
      apply (f_equal (@length _)) in Hnil.
      rewrite sorted_reverse_length in Hnil.
      destruct (results_ (this w)); [congruence | discriminate]. }
    destruct (select_balanced_inv n w Hne') as (rb & Hrb & Hbal).
    destruct (select_least_biased_inv w Hne) as (rl & Hrl & Hleast).
    rewrite Htop in Hrb.
    assert (Hmb : minimal rb).
    { split.
      - apply (sorted_reverse_In accuracy); eapply first_min_In; eauto.
      - intros x Hx; eapply first_min_lower; eauto.
        now apply (sorted_reverse_In accuracy). }
    assert (Hml : minimal rl).
    { split; [eapply first_min_In; eauto |].
      intros x Hx; eapply first_min_lower; eauto. }
    exists (sorted_reverse accuracy (results_ (this w))), rb, rl.
    split; [apply sorted_reverse_perm |].
    split; [apply sorted_reverse_descending |].
    split; [intros q; apply sorted_reverse_stable |].
    repeat split; try apply Hmb; try apply Hml; auto.
    + destruct Hmb as [Hinb Hlb], Hml as [Hinl Hll].
      apply Qle_antisym; auto.
    + intros Hsame; rewrite Hbal, Hleast, (Hsame rb rl); auto.
Qed.

(** C3, as the code has it. The threshold is not validated.  With
    threshold 0 the policy fails with [ValueError], before any
    retraining; with a threshold above the number [n >= 1] of records
    it behaves exactly as with threshold [n]: it selects a record and
    goes on to retrain. *)
Theorem select_balanced_threshold_unchecked (w : World E) :
  select_balanced_model 0 w = (Raise ValueError, w) /\
  (forall threshold,
      results_ (this w) <> [] ->
      (Z.of_nat (length (results_ (this w))) < threshold)%Z ->
      select_balanced_model threshold w =
      select_balanced_model (Z.of_nat (length (results_ (this w)))) w /\
      exists r,
        In r (results_ (this w)) /\
        select_balanced_model threshold w = _retrain_model (params r) w /\
        exists rest,
          calls (snd (select_balanced_model threshold w)) =
          calls w ++ CClone (estimator (this w)) :: rest).
Proof.
  split; [reflexivity |].
  intros t Hne Hlt.
  assert (Hall : forall t', (Z.of_nat (length (results_ (this w))) <= t')%Z ->
            top_accurate_models t' w =
            sorted_reverse accuracy (results_ (this w))).
  { intros t' Hle; unfold top_accurate_models; apply slice_to_all.
    now rewrite sorted_reverse_length. }
  assert (Heq : forall t', (Z.of_nat (length (results_ (this w))) <= t')%Z ->
            select_balanced_model t' w =
            bind (lift (py_min bias
                          (sorted_reverse accuracy (results_ (this w)))))
                 (fun best => _retrain_model (params best)) w).
  { intros t' Hle; unfold select_balanced_model.
    rewrite bind_get_self; fold (top_accurate_models t' w).
    now rewrite Hall. }
  split; [rewrite !Heq by lia; reflexivity |].
  assert (Hne' : top_accurate_models t w <> []).
  { rewrite Hall by lia; intros Hnil.
    apply (f_equal (@length _)) in Hnil.
    rewrite sorted_reverse_length in Hnil.
    destruct (results_ (this w)); [congruence | discriminate]. }
  destruct (select_balanced_inv t w Hne') as (r & Hr & Hsel).
  exists r; split; [| split; auto].
  - eapply top_accurate_models_In, first_min_In; eauto.
  - rewrite Hsel.
    destruct (_retrain_model (params r) w) as [res w'] eqn:Hre.
    eapply retrain_model_calls; eauto.
Qed.

Lemma retraining_is_full p w r :
  In r (results_ (this w)) -> p w = _retrain_model (params r) w ->
  ends_by_full_retraining p w.
Proof.
  intros Hin Hp m w' Hrun; rewrite Hp in Hrun.
  apply retrain_model_ok in Hrun.
  destruct Hrun as (e1 & e2 & features & target & Hc & Hs & Hd & Hg & Hf
                    & Hcalls & _).
  destruct (drop_columns_ok _ _ Hd) as (Hrows & Hnot & Hother).
  exists r, e1, e2, features, target; repeat split; auto.
Qed.

(** C7. Each of the three policies, once it has selected a record,
    hands that record's configuration to the retraining step, and the
    retraining step clones the base estimator, configures the clone
    with the configuration and fits it on the whole stored dataset:
    all its rows, every column but the outcome as features, the outcome
    column as target; the result of that fit is what the policy
    returns.  The training split of the search plays no part. *)
Theorem selection_retrains_on_full_dataset (w : World E) :
  let self := this w in
  let est := estimator self in
  let oc := outcome_column self in
  (forall p e1 e2 features target,
      clone est = Ok e1 -> set_params e1 p = Ok e2 ->
      drop_columns (df self) oc = Ok features ->
      getitem (df self) oc = Ok target ->
      _retrain_model p w =
      (model_fit e2 features target,
       logged w [CClone est; CSetParams e1 p; CFit e2 features target])) /\
  (forall col,
      lookup_column (columns (df self)) oc = Some col ->
      exists features target,
        drop_columns (df self) oc = Ok features /\
        getitem (df self) oc = Ok target /\
        index features = index (df self) /\
        nrows features = nrows (df self) /\
        ~ In oc (column_names features) /\
        (forall other, other <> oc ->
           lookup_column (columns features) other =
           lookup_column (columns (df self)) other) /\
        s_index target = index (df self) /\
        s_values target = col) /\
  (results_ self <> [] ->
   exists r, In r (results_ self) /\
             select_highest_accuracy_model w = _retrain_model (params r) w) /\
  (results_ self <> [] ->
   exists r, In r (results_ self) /\
             select_least_biased_model w = _retrain_model (params r) w) /\
  (forall threshold,
      top_accurate_models threshold w <> [] ->
      exists r, In r (results_ self) /\
                select_balanced_model threshold w =
                _retrain_model (params r) w) /\
  ends_by_full_retraining select_highest_accuracy_model w /\
  ends_by_full_retraining select_least_biased_model w /\
  forall threshold,
    ends_by_full_retraining (select_balanced_model threshold) w.
Proof.
  cbv zeta; split; [| split; [| split; [| split; [| split]]]].
  - intros p e1 e2 features target Hc Hs Hd Hg.
    rewrite retrain_model_cases; cbv zeta; now rewrite Hc, Hs, Hd, Hg.
  - intros col Hcol.
    destruct (drop_columns (df (this w)) (outcome_column (this w)))
      as [features | e] eqn:Hd;
      [| unfold drop_columns in Hd; rewrite Hcol in Hd; discriminate].
    destruct (drop_columns_ok _ _ Hd) as (Hrows & Hnot & Hother).
    exists features, {| s_index := index (df (this w)); s_values := col |}.
    unfold getitem; rewrite Hcol; repeat split; auto.
    unfold drop_columns in Hd; rewrite Hcol in Hd; now inversion Hd.
  - intros Hne.
    destruct (select_highest_accuracy_inv w Hne) as (r & Hmax & Hsel).
    exists r; split; auto; eapply first_max_In; eauto.
  - intros Hne.
    destruct (select_least_biased_inv w Hne) as (r & Hmin & Hsel).
    exists r; split; auto; eapply first_min_In; eauto.
  - intros t Hne.
    destruct (select_balanced_inv t w Hne) as (r & Hmin & Hsel).
    exists r; split; auto.
    eapply top_accurate_models_In, first_min_In; eauto.
  - split; [| split; [| intros t]].
    + destruct (results_ (this w)) as [| r0 rs] eqn:Hrs.
      * intros m w' Hrun; unfold select_highest_accuracy_model in Hrun.
        rewrite bind_get_self, Hrs in Hrun; discriminate.
      * assert (Hne : results_ (this w) <> [])
          by (rewrite Hrs; discriminate).
        destruct (select_highest_accuracy_inv w Hne) as (r & Hmax & Hsel).
        eapply retraining_is_full; eauto.
        eapply first_max_In; eauto.
    + destruct (results_ (this w)) as [| r0 rs] eqn:Hrs.
      * intros m w' Hrun; unfold select_least_biased_model in Hrun.
        rewrite bind_get_self, Hrs in Hrun; discriminate.
      * assert (Hne : results_ (this w) <> [])
          by (rewrite Hrs; discriminate).
        destruct (select_least_biased_inv w Hne) as (r & Hmin & Hsel).
        eapply retraining_is_full; eauto.
        eapply first_min_In; eauto.
    + destruct (top_accurate_models t w) as [| r0 rs] eqn:Htop.
      * intros m w' Hrun.
        rewrite (select_balanced_empty t w Htop) in Hrun; discriminate.
      * assert (Hne : top_accurate_models t w <> [])
          by (rewrite Htop; discriminate).
        destruct (select_balanced_inv t w Hne) as (r & Hmin & Hsel).
        eapply retraining_is_full; eauto.
        eapply top_accurate_models_In, first_min_In; eauto.
Qed.

(** C9, as the code has it. [find_optimum_model] does nothing: for
    every margin it returns [None] and leaves the object and the
    estimator untouched; it raises nothing. *)
Theorem find_optimum_model_returns_none (margin : Q) (w : World E) :
  find_optimum_model margin w = (Ok tt, w).
Proof. reflexivity. Qed.
End SelectionTheorems.

(** * Further properties of the selection policies *)

Section MoreSelectionTheorems.
Context {E : Type} `{Estimator E} {metrics : Metrics}.

(** X1. With no stored record (no search has run), every policy fails
    with [ValueError], whatever the threshold, and nothing else
    happens: no estimator call, no change to the object. *)
Theorem selection_without_records_raises (w : World E) :
  results_ (this w) = [] ->
  select_highest_accuracy_model w = (Raise ValueError, w) /\
  select_least_biased_model w = (Raise ValueError, w) /\
  forall threshold, select_balanced_model threshold w = (Raise ValueError, w).
Proof.
  intros Hrs; split; [| split; [| intros t]].
  - unfold select_highest_accuracy_model; now rewrite bind_get_self, Hrs.
  - unfold select_least_biased_model; now rewrite bind_get_self, Hrs.
  - apply select_balanced_empty.
    unfold top_accurate_models, slice_to; rewrite Hrs; simpl.
    destruct (t <? 0)%Z; apply firstn_nil.
Qed.

(** X2. No policy changes the object, whatever its outcome:
    [results_] and every other field are as before.  A policy makes at
    most three estimator calls and never asks for a prediction. *)
Theorem selection_leaves_object_alone (w : World E) :
  leaves_object_alone select_highest_accuracy_model w /\
  leaves_object_alone select_least_biased_model w /\
  forall threshold, leaves_object_alone (select_balanced_model threshold) w.
Proof.
  split; [| split; [| intros t]]; apply selects_then_retrains_alone.
  - apply select_highest_accuracy_cases.
  - apply select_least_biased_cases.
  - apply select_balanced_cases.
Qed.

(** X3. A negative threshold is accepted: [-k] drops the [k] least
    accurate of the [n] records, so the policy behaves as with
    threshold [n - k], and as with threshold 0 when [k >= n]. *)
Theorem select_balanced_negative_threshold (w : World E) (k : Z) :
  (0 < k)%Z ->
  select_balanced_model (- k) w =
  select_balanced_model
    (Z.max 0 (Z.of_nat (length (results_ (this w))) - k)) w.
Proof.
  intros Hk.
  assert (Htop : top_accurate_models (- k) w =
                 top_accurate_models
                   (Z.max 0 (Z.of_nat (length (results_ (this w))) - k)) w).
  { unfold top_accurate_models, slice_to.
    rewrite sorted_reverse_length.
    destruct (- k <? 0)%Z eqn:Hneg; [| lia].
    destruct (Z.max 0 _ <? 0)%Z eqn:Hmax; [lia |].
    f_equal; lia. }
  unfold select_balanced_model; rewrite !bind_get_self.
  fold (top_accurate_models (- k) w).
  fold (top_accurate_models
          (Z.max 0 (Z.of_nat (length (results_ (this w))) - k)) w).
  now rewrite Htop.
Qed.

(** X4. When the stored dataset has no outcome column, retraining
    fails before any training call: with [KeyError] once the clone is
    made and configured.  No policy then returns a model. *)
Theorem retraining_needs_outcome_column (w : World E) :
  lookup_column (columns (df (this w))) (outcome_column (this w)) = None ->
  (forall p,
      (exists e, fst (_retrain_model p w) = Raise e) /\
      (forall e1 e2,
          clone (estimator (this w)) = Ok e1 -> set_params e1 p = Ok e2 ->
          fst (_retrain_model p w) = Raise KeyError) /\
      (forall e X y,
          In (CFit e X y) (calls (snd (_retrain_model p w))) ->
          In (CFit e X y) (calls w))) /\
  (forall m,
      fst (select_highest_accuracy_model w) <> Ok m /\
      fst (select_least_biased_model w) <> Ok m /\
      forall threshold, fst (select_balanced_model threshold w) <> Ok m).
Proof.
  intros Hmiss.
  assert (Hdrop : drop_columns (df (this w)) (outcome_column (this w)) =
                  Raise KeyError)
    by (unfold drop_columns; now rewrite Hmiss).
  assert (Hre : forall p,
             (exists e, fst (_retrain_model p w) = Raise e) /\
             (forall e1 e2,
                 clone (estimator (this w)) = Ok e1 ->
                 set_params e1 p = Ok e2 ->
                 fst (_retrain_model p w) = Raise KeyError) /\
             (forall e X y,
                 In (CFit e X y) (calls (snd (_retrain_model p w))) ->
                 In (CFit e X y) (calls w))).
  { intros p; rewrite retrain_model_cases; cbv zeta; rewrite Hdrop.
    destruct (clone _) as [e1 | e] eqn:Hc;
      [destruct (set_params e1 p) as [e2 | e] eqn:Hs |]; simpl;
      (split; [eauto |]);
      (split; [intros e1' e2' He1 He2; congruence |]);
      intros e0 X0 y0 Hin; apply in_app_or in Hin;
      destruct Hin as [Hin | Hin]; auto; simpl in Hin;
      repeat (destruct Hin as [Hin | Hin]; [discriminate |]);
      contradiction. }
  split; auto.
  assert (Hpol : forall policy m,
             selects_then_retrains policy w -> fst (policy w) <> Ok m).
  { intros policy m [Hraise | (r & _ & Hsel)].
    - rewrite Hraise; discriminate.
    - rewrite Hsel; destruct (Hre (params r)) as [(e & ->) _]; discriminate. }
  intros m; split; [| split; [| intros t]]; apply Hpol.
  - apply select_highest_accuracy_cases.
  - apply select_least_biased_cases.
  - apply select_balanced_cases.
Qed.
End MoreSelectionTheorems.

(** * Further properties of the search *)

Lemma iloc_columns_lookup_None cs idx name : forall cs',
  iloc_columns cs idx = Ok cs' ->
  lookup_column cs name = None -> lookup_column cs' name = None.
Proof.
  induction cs as [| [n s] cs IH]; intros cs' Hi Hl; simpl in *.
  - now inversion Hi.
  - destruct (take_positions s idx); [| discriminate].
    destruct (iloc_columns cs idx) as [r |]; [| discriminate].
    inversion Hi; subst; simpl.
    destruct (String.eqb n name); [discriminate | eauto].
Qed.

Lemma iloc_lookup_None d idx d' name :
  iloc d idx = Ok d' ->
  lookup_column (columns d) name = None ->
  lookup_column (columns d') name = None.
Proof.
  unfold iloc; destruct (take_positions (index d) idx); [| discriminate].
  destruct (iloc_columns (columns d) idx) as [cs |] eqn:Hc; [| discriminate].
  intros Hi; inversion Hi; subst; simpl.
  eapply iloc_columns_lookup_None; eauto.
Qed.

Section MoreFitTheorems.
Context {E : Type} `{Estimator E} {metrics : Metrics}.

(** X5. [fit] changes nothing of the object but [results_], whatever
    its outcome: the estimator, the grid, the stored dataset, the column
    names, the group values and the fold count are as given to the
    constructor. *)
Theorem fit_keeps_constructor_fields
  (X_train : DataFrame) (y_train : Series) (w : World E) :
  let self := this w in
  let self' := this (snd (fit X_train y_train w)) in
  estimator self' = estimator self /\
  param_grid self' = param_grid self /\
  df self' = df self /\
  outcome_column self' = outcome_column self /\
  protected_attribute self' = protected_attribute self /\
  privileged_value self' = privileged_value self /\
  unprivileged_value self' = unprivileged_value self /\
  cv self' = cv self.
Proof.
  destruct (fit X_train y_train w) as [r w'] eqn:Hfit.
  apply fit_inv in Hfit; destruct Hfit as (done & recs & Hthis & _).
  simpl; rewrite Hthis; simpl; repeat split.
Qed.

(** X6. [fit] needs at least two folds and at least as many rows as
    folds: otherwise it fails with [ValueError] before any estimator
    call, and appends nothing. *)
Theorem fit_rejects_bad_fold_count
  (X_train : DataFrame) (y_train : Series) (w : World E) :
  (cv (this w) <= 1)%Z \/ (Z.of_nat (nrows X_train) < cv (this w))%Z ->
  fit X_train y_train w = (Raise ValueError, w).
Proof.
  intros Hbad; unfold fit.
  change (bind get_self ?k w) with (k (this w) w); cbv beta.
  destruct (KFold_init (cv (this w))) as [kf | e] eqn:Hkf.
  - apply KFold_init_ok in Hkf as Hcv; destruct Hcv as [Hcv Hn].
    destruct Hbad as [Hbad | Hbad]; [lia |].
    cbn [bind lift].
    destruct (ParameterGrid (param_grid (this w))) as [cfgs | e] eqn:Hg.
    + destruct cfgs as [| c cfgs];
        [now apply ParameterGrid_nonempty in Hg |].
      cbn [for_each]; unfold evaluate_config, bind, lift, split.
      destruct (nrows X_train <? n_splits kf) eqn:Hlt; [reflexivity |].
      apply Nat.ltb_ge in Hlt; lia.
    + apply ParameterGrid_raises in Hg; now subst.
  - unfold KFold_init in Hkf.
    destruct (cv (this w) <=? 1)%Z; inversion Hkf; reflexivity.
Qed.

Lemma evaluate_fold_needs_protected self X_train y_train p acc fold
  (w : World E) r w' :
  lookup_column (columns X_train) (protected_attribute self) = None ->
  evaluate_fold self X_train y_train p acc fold w = (r, w') ->
  exists e, r = Raise e.
Proof.
  intros Hmiss.
  unfold evaluate_fold, call_clone, call_set_params, call_fit, call_predict,
    record_call, bind, lift, modify, ret.
  destruct acc as [accs bs], fold as [tr va]; intros Hr.
  step_binds Hr; split_pairs; eauto.
  exfalso.
  match goal with
  | Hi : iloc X_train va = Ok ?d, Hg : getitem ?d _ = Ok _ |- _ =>
      apply (iloc_lookup_None _ _ (protected_attribute self)) in Hi; auto;
      unfold getitem in Hg; rewrite Hi in Hg; discriminate
  end.
Qed.

Lemma evaluated_needs_protected self X_train y_train kf p r :
  lookup_column (columns X_train) (protected_attribute self) = None ->
  KFold_init (cv self) = Ok kf ->
  ~ evaluated self X_train y_train kf p r.
Proof.
  intros Hmiss Hkf (_ & folds & ms & Hsplit & Hms & _).
  apply KFold_init_ok in Hkf; destruct Hkf as [Hcv Hn].
  apply split_length in Hsplit.
  destruct Hms as [| fold m folds ms (w1 & w2 & Hfold) _];
    [simpl in Hsplit; lia |].
  eapply evaluate_fold_needs_protected in Hfold; eauto.
  destruct Hfold as [e He]; discriminate.
Qed.

(** X7. When the training table has no column for the protected
    attribute, [fit] cannot succeed, and it appends no record. *)
Theorem fit_needs_protected_attribute
  (X_train : DataFrame) (y_train : Series) (w : World E) :
  lookup_column (columns X_train) (protected_attribute (this w)) = None ->
  (exists e, fst (fit X_train y_train w) = Raise e) /\
  results_ (this (snd (fit X_train y_train w))) = results_ (this w).
Proof.
  intros Hmiss.
  destruct (fit X_train y_train w) as [r w'] eqn:Hfit0; simpl.
  apply fit_inv in Hfit0 as Hfit.
  destruct Hfit as (done & recs & Hthis & Hmap & Hr).
  assert (Hnone : forall kf, KFold_init (cv (this w)) = Ok kf ->
            Forall2 (evaluated (this w) X_train y_train kf) done recs ->
            recs = []).
  { intros kf Hkf Hall; destruct Hall as [| c rec done' recs' Hrec _]; auto.
    exfalso; eapply evaluated_needs_protected; eauto. }
  destruct r as [[] | e].
  - destruct Hr as (-> & kf & Hkf & Hall).
    specialize (Hnone kf Hkf Hall); subst recs.
    destruct (fit_ok_grid _ _ _ Hfit0) as (cfgs & Hg).
    apply ParameterGrid_nonempty in Hg as Hne.
    apply ParameterGrid_ok in Hg; subst cfgs.
    simpl in Hmap; congruence.
  - split; [eauto |].
    destruct Hr as [[-> _] | (kf & c & rest & w1 & w2 & Hkf & Hall & _)].
    + rewrite Hthis; simpl; now rewrite app_nil_r.
    + rewrite (Hnone kf Hkf Hall) in Hthis.
      rewrite Hthis; simpl; now rewrite app_nil_r.
Qed.
End MoreFitTheorems.

(** * The estimator calls of a search *)

Section SearchCalls.
Context {E : Type} `{Estimator E} {metrics : Metrics}.
Variables (self : BiasAwareGridSearchCV E) (X_train : DataFrame)
          (y_train : Series).

Lemma evaluate_fold_calls p acc fold (w : World E) r w' :
  evaluate_fold self X_train y_train p acc fold w = (Ok r, w') ->
  exists block,
    fold_calls self X_train y_train p fold block /\
    calls w' = calls w ++ block.
Proof.
  unfold fold_calls, evaluate_fold, call_clone, call_set_params, call_fit,
    call_predict, record_call, bind, lift, modify, ret.
  destruct acc as [accs bs], fold as [tr va]; intros Hr.
  step_binds Hr; split_pairs.
  eexists; split; [| simpl; rewrite <- !app_assoc; simpl; reflexivity].
  eexists _, _, _, _, _, _; simpl; repeat split; eauto.
Qed.

Lemma for_fold_calls p folds : forall acc (w : World E) r w',
  for_fold folds (evaluate_fold self X_train y_train p) acc w = (Ok r, w') ->
  exists blocks,
    Forall2 (fold_calls self X_train y_train p) folds blocks /\
    calls w' = calls w ++ concat blocks.
Proof.
  induction folds as [| fold folds IH]; intros acc w r w' Hr; simpl in Hr.
  - inversion Hr; subst; exists []; simpl; rewrite app_nil_r; auto.
  - apply bind_inv in Hr.
    destruct Hr as [(acc1 & w1 & Hfold & Hrest) | (e & _ & Hr)];
      [| discriminate].
    apply evaluate_fold_calls in Hfold; destruct Hfold as (b & Hb & Hc1).
    apply IH in Hrest; destruct Hrest as (bs & Hbs & Hc2).
    exists (b :: bs); simpl; split; auto.
    now rewrite Hc2, Hc1, <- app_assoc.
Qed.

Lemma evaluate_config_calls kf p (w : World E) w' :
  evaluate_config self kf X_train y_train p w = (Ok tt, w') ->
  exists folds blocks,
    split kf (nrows X_train) = Ok folds /\
    Forall2 (fold_calls self X_train y_train p) folds blocks /\
    calls w' = calls w ++ concat blocks.
Proof.
  unfold evaluate_config; intros Hr.
  apply bind_inv in Hr.
  destruct Hr as [(folds & w1 & Hsplit & Hr) | (e & _ & Hr)];
    [| discriminate].
  apply lift_inv in Hsplit; destruct Hsplit as [Hsplit ->].
  apply bind_inv in Hr.
  destruct Hr as [(scores & w2 & Hloop & Hr) | (e & _ & Hr)];
    [| discriminate].
  apply for_fold_calls in Hloop; destruct Hloop as (bs & Hbs & Hc).
  unfold results_append, modify in Hr; inversion Hr; subst; simpl.
  exists folds, bs; auto.
Qed.

Lemma for_each_calls kf cfgs : forall (w : World E) w',
  for_each cfgs (evaluate_config self kf X_train y_train) w = (Ok tt, w') ->
  exists blockss,
    Forall2 (fun p blocks =>
               exists folds,
                 split kf (nrows X_train) = Ok folds /\
                 Forall2 (fold_calls self X_train y_train p) folds blocks)
            cfgs blockss /\
    calls w' = calls w ++ concat (concat blockss).
Proof.
  induction cfgs as [| c cfgs IH]; intros w w' Hr; simpl in Hr.
  - inversion Hr; subst; exists []; simpl; rewrite app_nil_r; auto.
  - apply bind_inv in Hr.
    destruct Hr as [([] & w1 & Hc & Hrest) | (e & _ & Hr)]; [| discriminate].
    apply evaluate_config_calls in Hc.
    destruct Hc as (folds & b1 & Hs & Hb1 & Hc1).
    apply IH in Hrest; destruct Hrest as (bs & Hbs & Hc2).
    exists (b1 :: bs); split; [constructor; eauto |].
    simpl; now rewrite Hc2, Hc1, concat_app, app_assoc.
Qed.
End SearchCalls.

Lemma fold_calls_length {E} `{Estimator E} (self : BiasAwareGridSearchCV E)
  X_train y_train p folds blocks :
  Forall2 (fold_calls self X_train y_train p) folds blocks ->
  length (concat blocks) = 4 * length folds.
Proof.
  induction 1 as [| fold b folds blocks Hb _ IH]; simpl; auto.
  destruct Hb as (Xt & yt & Xv & e1 & e2 & e3 & _ & _ & _ & _ & _ & _ & ->).
  rewrite length_app, IH; simpl; lia.
Qed.

Section SearchCallsTheorem.
Context {E : Type} `{Estimator E} {metrics : Metrics}.

(** X8. A successful search makes its estimator calls configuration by
    configuration, in the order of the grid, and within a configuration
    fold by fold, in the order of the split: for each fold the base
    estimator is cloned, the clone is configured with the
    configuration, fitted on the rows of the fold's training indices
    and asked to predict the rows of the fold's validation indices.
    With [g] configurations and [cv] folds that is [4 * g * cv] calls. *)
Theorem fit_estimator_calls
  (X_train : DataFrame) (y_train : Series) (w w' : World E) :
  fit X_train y_train w = (Ok tt, w') ->
  let g := grid_size (param_grid (this w)) in
  let k := Z.to_nat (cv (this w)) in
  exists kf folds blockss,
    KFold_init (cv (this w)) = Ok kf /\
    split kf (nrows X_train) = Ok folds /\
    Forall2 (fun p blocks =>
               Forall2 (fold_calls (this w) X_train y_train p) folds blocks)
            (grid_configs (param_grid (this w))) blockss /\
    calls w' = calls w ++ concat (concat blockss) /\
    length (calls w') = length (calls w) + 4 * (g * k).
Proof.
  intros Hfit0.
  destruct (fit_ok_grid _ _ _ Hfit0) as (cfgs & Hg0).
  apply ParameterGrid_nonempty in Hg0 as Hne.
  revert Hfit0; unfold fit; intros Hr.
  change (bind get_self ?k w) with (k (this w) w) in Hr; cbv beta in Hr.
  apply bind_inv in Hr.
  destruct Hr as [(kf & w1 & Hkf & Hr) | (e & _ & Hr)]; [| discriminate].
  apply lift_inv in Hkf; destruct Hkf as [Hkf ->].
  apply bind_inv in Hr.
  destruct Hr as [(cfgs' & w1 & Hg & Hr) | (e & _ & Hr)]; [| discriminate].
  apply lift_inv in Hg; destruct Hg as [Hg ->].
  rewrite Hg0 in Hg; inversion Hg; subst cfgs'; clear Hg.
  apply ParameterGrid_ok in Hg0; subst cfgs.
  apply KFold_init_ok in Hkf as Hcv; destruct Hcv as [_ Hn].
  apply for_each_calls in Hr; destruct Hr as (blockss & Hall & Hc).
  assert (Hsplit : exists folds, split kf (nrows X_train) = Ok folds).
  { destruct Hall as [| c b cs bs (folds & Hs & _) _]; [congruence | eauto]. }
  destruct Hsplit as (folds & Hsplit).
  apply split_length in Hsplit as Hlen.
  assert (Hall' : Forall2 (fun p blocks =>
             Forall2 (fold_calls (this w) X_train y_train p) folds blocks)
             (grid_configs (param_grid (this w))) blockss).
  { clear - Hall Hsplit.
    induction Hall as [| c b cs bs (folds' & Hs & Hb) _ IH]; constructor; auto.
    rewrite Hsplit in Hs; inversion Hs; now subst. }
  exists kf, folds, blockss; repeat split; auto.
  rewrite Hc, length_app; f_equal.
  rewrite <- grid_configs_length, <- Hn, <- Hlen.
  clear - Hall'.
  induction Hall' as [| c b cs bs Hb _ IH]; simpl; auto.
  rewrite concat_app, length_app, IH.
  rewrite (fold_calls_length Hb); lia.
Qed.
End SearchCallsTheorem.

(** * Configurations and the ranking *)

Lemma insert_item_perm {V} (x : string * V) l :
  Permutation (insert_item x l) (x :: l).
Proof.
  induction l as [| y l IH]; simpl; auto.
  destruct (String.ltb (fst y) (fst x)); auto.
  rewrite IH; apply perm_swap.
Qed.

Lemma sorted_items_perm {V} (l : list (string * V)) :
  Permutation (sorted_items l) l.
Proof.
  induction l as [| x l IH]; simpl; auto.
  rewrite insert_item_perm; auto.
Qed.

(** A tuple of the product takes its i-th item from the i-th list. *)
Lemma product_In {V} (values : list (list V)) : forall v,
  In v (product values) -> Forall2 (fun x vs => In x vs) v values.
Proof.
  induction values as [| vs rest IH]; intros v Hv; simpl in Hv.
  - destruct Hv as [<- | []]; constructor.
  - apply in_flat_map in Hv; destruct Hv as (x & Hx & Hv).
    apply in_map_iff in Hv; destruct Hv as (tl & <- & Htl).
    constructor; auto.
Qed.

Lemma combine_items {V} (items : list (string * list V)) : forall v,
  Forall2 (fun x vs => In x vs) v (map snd items) ->
  map fst (combine (map fst items) v) = map fst items /\
  forall name x, In (name, x) (combine (map fst items) v) ->
                 exists vs, In (name, vs) items /\ In x vs.
Proof.
  induction items as [| [k vs] items IH]; intros v Hv; simpl in *.
  - split; [reflexivity | intros name x []].
  - inversion Hv as [| x0 vs0 v' rest Hx Hrest]; subst; simpl.
    destruct (IH v' Hrest) as [Hkeys Hvals].
    split; [now rewrite Hkeys |].
    intros name x [Heq | Hin].
    + inversion Heq; subst; exists vs; auto.
    + destruct (Hvals name x Hin) as (vs' & Hin' & Hx'); eauto.
Qed.

(** Every configuration of the grid gives each parameter of the grid
    one of the values listed for it. *)
Lemma grid_configs_wf (g : ParamGrid) c :
  In c (grid_configs g) ->
  Permutation (map fst c) (map fst g) /\
  forall name x, In (name, x) c -> exists vs, In (name, vs) g /\ In x vs.
Proof.
  unfold grid_configs; intros Hc.
  apply in_map_iff in Hc; destruct Hc as (v & <- & Hv).
  apply product_In in Hv.
  destruct (combine_items _ Hv) as [Hkeys Hvals]; split.
  - rewrite Hkeys; apply Permutation_map, sorted_items_perm.
  - intros name x Hin; destruct (Hvals name x Hin) as (vs & Hvs & Hx).
    exists vs; split; auto.
    eapply Permutation_in; [apply sorted_items_perm | exact Hvs].
Qed.

Lemma descending_firstn_skipn {A} (key : A -> Q) (l : list A) n x y :
  descending key l -> In x (firstn n l) -> In y (skipn n l) ->
  (key y <= key x)%Q.
Proof.
  intros Hd Hx Hy.
  apply In_nth_error in Hx; destruct Hx as [i Hi].
  apply In_nth_error in Hy; destruct Hy as [j Hj].
  rewrite nth_error_firstn in Hi; rewrite nth_error_skipn in Hj.
  destruct (i <? n) eqn:Hlt; [| discriminate].
  apply Nat.ltb_lt in Hlt.
  apply (Hd i (n + j)); auto; lia.
Qed.

Section MoreTheorems.
Context {E : Type} `{Estimator E} {metrics : Metrics}.

(** X10. Every record appended by a successful search configures
    exactly the parameters named in the grid, each with one of the
    values the grid lists for it. *)
Theorem fit_records_take_values_from_grid
  (X_train : DataFrame) (y_train : Series) (w w' : World E) :
  fit X_train y_train w = (Ok tt, w') ->
  exists recs,
    results_ (this w') = results_ (this w) ++ recs /\
    Forall (fun r =>
      Permutation (map fst (params r)) (map fst (param_grid (this w))) /\
      forall name v,
        In (name, v) (params r) ->
        exists vs, In (name, vs) (param_grid (this w)) /\ In v vs) recs.
Proof.
  intros Hfit; apply fit_inv in Hfit.
  destruct Hfit as (done & recs & Hthis & Hmap & -> & _).
  exists recs; split; [now rewrite Hthis |].
  apply Forall_forall; intros r Hr.
  apply grid_configs_wf; rewrite <- Hmap; now apply in_map.
Qed.

(** X11. After a successful search on an object without earlier
    records, the highest-accuracy policy, the least-bias policy and the
    balanced policy with a positive threshold all go on to retrain, and
    with a configuration of the grid. *)
Theorem search_then_select_retrains_grid_configuration
  (X_train : DataFrame) (y_train : Series) (w w' : World E) :
  fit X_train y_train w = (Ok tt, w') ->
  results_ (this w) = [] ->
  let in_grid (policy : Py E E) :=
    exists c, In c (grid_configs (param_grid (this w))) /\
              policy w' = _retrain_model c w' in
  in_grid select_highest_accuracy_model /\
  in_grid select_least_biased_model /\
  forall threshold,
    (0 < threshold)%Z -> in_grid (select_balanced_model threshold).
Proof.
  intros Hfit Hfresh.
  destruct (fit_ok_grid _ _ _ Hfit) as (cfgs & Hg).
  apply ParameterGrid_nonempty in Hg as Hne.
  apply ParameterGrid_ok in Hg; subst cfgs.
  apply fit_inv in Hfit.
  destruct Hfit as (done & recs & Hthis & Hmap & -> & _).
  assert (Hres : results_ (this w') = recs)
    by (rewrite Hthis, Hfresh; reflexivity).
  assert (Hne' : results_ (this w') <> []).
  { rewrite Hres; intros ->; simpl in Hmap; congruence. }
  assert (Hin : forall r, In r (results_ (this w')) ->
            In (params r) (grid_configs (param_grid (this w)))).
  { intros r Hr; rewrite <- Hmap, <- Hres; now apply in_map. }
  intros in_grid; split; [| split; [| intros t Ht]].
  - destruct (select_highest_accuracy_inv w' Hne') as (r & Hr & Hsel).
    exists (params r); split; auto.
    apply Hin; eapply first_max_In; eauto.
  - destruct (select_least_biased_inv w' Hne') as (r & Hr & Hsel).
    exists (params r); split; auto.
    apply Hin; eapply first_min_In; eauto.
  - assert (Htop : top_accurate_models t w' <> []).
    { unfold top_accurate_models, slice_to.
      destruct (t <? 0)%Z eqn:Hneg; [lia |].
      pose proof (sorted_reverse_length accuracy (results_ (this w'))) as Hl.
      destruct (sorted_reverse accuracy (results_ (this w'))) as [| x l];
        [destruct (results_ (this w')); [congruence | discriminate] |].
      destruct (Z.to_nat t) eqn:Hn; [lia | discriminate]. }
    destruct (select_balanced_inv t w' Htop) as (r & Hr & Hsel).
    exists (params r); split; auto.
    apply Hin; eapply top_accurate_models_In, first_min_In; eauto.
Qed.

(** X12. With a threshold [t >= 1] on a non-empty result list, the
    balanced policy splits the records into the [min t n] most
    accurate ones and the rest, no record of the rest being more
    accurate than one of the top, and retrains with a record of the top
    whose bias no record of the top undercuts. *)
Theorem select_balanced_picks_least_biased_of_top (w : World E) (t : Z) :
  (0 < t)%Z -> results_ (this w) <> [] ->
  exists top rest r,
    Permutation (top ++ rest) (results_ (this w)) /\
    length top = Nat.min (Z.to_nat t) (length (results_ (this w))) /\
    (forall x y, In x top -> In y rest -> (accuracy y <= accuracy x)%Q) /\
    In r top /\
    (forall x, In x top -> (bias r <= bias x)%Q) /\
    select_balanced_model t w = _retrain_model (params r) w.
Proof.
  intros Ht Hne.
  set (sorted := sorted_reverse accuracy (results_ (this w))).
  assert (Htop : top_accurate_models t w = firstn (Z.to_nat t) sorted).
  { unfold top_accurate_models, slice_to.
    destruct (t <? 0)%Z eqn:Hneg; [lia | reflexivity]. }
  assert (Hne' : top_accurate_models t w <> []).
  { rewrite Htop.
    pose proof (sorted_reverse_length accuracy (results_ (this w))) as Hl.
    fold sorted in Hl.
    destruct sorted as [| x l];
      [destruct (results_ (this w)); [congruence | discriminate] |].
    destruct (Z.to_nat t) eqn:Hn; [lia | discriminate]. }
  destruct (select_balanced_inv t w Hne') as (r & Hr & Hsel).
  rewrite Htop in Hr.
  exists (firstn (Z.to_nat t) sorted), (skipn (Z.to_nat t) sorted), r.
  split; [rewrite firstn_skipn; apply sorted_reverse_perm |].
  split; [rewrite length_firstn; unfold sorted;
          now rewrite sorted_reverse_length |].
  split.
  - intros x y Hx Hy.
    eapply (descending_firstn_skipn (key := accuracy)); eauto.
    apply sorted_reverse_descending.
  - split; [eapply first_min_In; eauto |].
    split; auto.
    intros x Hx; eapply first_min_lower; eauto.
Qed.
End MoreTheorems.

(** * Folds and fold scores *)

Lemma concat_test_folds sizes : forall start,
  concat (test_folds start sizes) = seq start (list_sum sizes).
Proof.
  induction sizes as [| size sizes IH]; intros start; simpl; auto.
  now rewrite IH, seq_app.
Qed.

Lemma list_sum_fold_sizes q r k :
  list_sum (map (fun i => q + (if i <? r then 1 else 0)) (seq 0 k)) =
  k * q + Nat.min r k.
Proof.
  induction k as [| k IH]; [simpl; lia |].
  rewrite seq_S, map_app, list_sum_app, IH; simpl.
  destruct (k <? r) eqn:Hlt;
    [apply Nat.ltb_lt in Hlt | apply Nat.ltb_ge in Hlt]; lia.
Qed.

Lemma fold_sizes_sum n k : 0 < k -> list_sum (fold_sizes n k) = n.
Proof.
  intros Hk; unfold fold_sizes; rewrite list_sum_fold_sizes.
  pose proof (Nat.mod_upper_bound n k ltac:(lia)).
  pose proof (Nat.div_mod_eq n k); lia.
Qed.

Lemma test_folds_nonempty sizes : forall start,
  Forall (fun size => 0 < size) sizes ->
  Forall (fun test => test <> []) (test_folds start sizes).
Proof.
  induction sizes as [| size sizes IH]; intros start Hall; simpl; auto.
  inversion Hall; subst; constructor; auto.
  destruct size; [lia | discriminate].
Qed.

(** X13. The folds of a successful split partition the rows: the
    validation parts, taken in order, are the rows [0 .. n - 1], each
    once; no validation part is empty; the training part of a fold
    holds exactly the rows that are not in its validation part. *)
Theorem split_partitions_rows (kf : KFold) (n : nat) folds :
  0 < n_splits kf -> split kf n = Ok folds ->
  concat (map snd folds) = seq 0 n /\
  Forall (fun fold => snd fold <> []) folds /\
  Forall (fun fold =>
            forall i, In i (fst fold) <-> i < n /\ ~ In i (snd fold)) folds.
Proof.
  unfold split; intros Hk Hs.
  destruct (n <? n_splits kf) eqn:Hlt; [discriminate |].
  apply Nat.ltb_ge in Hlt; inversion Hs; subst; clear Hs.
  rewrite map_map; simpl; rewrite map_id.
  split; [now rewrite concat_test_folds, fold_sizes_sum |].
  split.
  - apply Forall_map; simpl.
    apply test_folds_nonempty.
    unfold fold_sizes; apply Forall_map, Forall_forall; intros i _.
    assert (0 < n / n_splits kf) by (apply Nat.div_str_pos; lia).
    lia.
  - apply Forall_map, Forall_forall; intros test _ i; simpl.
    unfold train_of; rewrite filter_In, in_seq, negb_true_iff.
    split.
    + intros [Hi Hex]; split; [lia |].
      intros Hin; assert (existsb (Nat.eqb i) test = true); [| congruence].
      apply existsb_exists; exists i; split; auto; apply Nat.eqb_refl.
    + intros [Hi Hnot]; split; [lia |].
      destruct (existsb (Nat.eqb i) test) eqn:Hex; auto.
      apply existsb_exists in Hex; destruct Hex as (j & Hj & Heq).
      apply Nat.eqb_eq in Heq; subst; contradiction.
Qed.

Lemma lookup_assign_same cs name s :
  lookup_column (assign_column cs name s) name = Some s.
Proof.
  induction cs as [| [n s0] cs IH]; simpl.
  - now rewrite String.eqb_refl.
  - destruct (String.eqb n name) eqn:Hn; simpl; now rewrite Hn.
Qed.

Lemma lookup_assign_other cs name s other :
  other <> name ->
  lookup_column (assign_column cs name s) other = lookup_column cs other.
Proof.
  intros Hne; induction cs as [| [n s0] cs IH]; simpl.
  - destruct (String.eqb name other) eqn:Hn; auto.
    apply String.eqb_eq in Hn; congruence.
  - destruct (String.eqb n name) eqn:Hn; simpl.
    + apply String.eqb_eq in Hn; subst n.
      destruct (String.eqb name other) eqn:Ho; auto.
      apply String.eqb_eq in Ho; congruence.
    + now rewrite IH.
Qed.

Lemma same_labels_refl (l : list Z) : same_labels l l = true.
Proof.
  induction l as [| z l IH]; simpl; auto.
  now rewrite Z.eqb_refl, IH.
Qed.

Lemma take_positions_length {V} (s : list V) idx : forall r,
  take_positions s idx = Ok r -> length r = length idx.
Proof.
  induction idx as [| i idx IH]; intros r Hr; simpl in Hr.
  - now inversion Hr.
  - destruct (nth_error s i); [| discriminate].
    destruct (take_positions s idx) as [vs |]; [| discriminate].
    inversion Hr; subst; simpl; f_equal; auto.
Qed.

Section FoldScores.
Context {E : Type} `{Estimator E} {metrics : Metrics}.

(** X14. The scores a fold contributes are measured on the
    validation rows: the accuracy compares the true outcomes of the
    validation rows with the predictions, for those rows, of a clone
    configured with the configuration and fitted on the training rows;
    the bias is the disparate impact of a table with one row per
    prediction whose column [outcome_pred] holds the predictions.  When
    the training table and the outcomes carry the same labels on the
    validation rows, the rows of that table are the validation rows in
    order: its protected column is theirs (unless it is named
    [outcome_pred]) and its outcome column holds their true outcomes
    (unless it shares its name with one of the other two). *)
Theorem fold_scores_come_from_validation_predictions
  (self : BiasAwareGridSearchCV E) (X_train : DataFrame) (y_train : Series)
  (p : Config) (accs bs : list Q) (train_index val_index : list nat)
  (w w' : World E) (accs' bs' : list Q) :
  evaluate_fold self X_train y_train p (accs, bs) (train_index, val_index) w
  = (Ok (accs', bs'), w') ->
  let oc := outcome_column self in
  let pa := protected_attribute self in
  let pred_column := (oc ++ "_pred")%string in
  exists X_fit y_fit X_val y_val e1 e2 e3 preds table a b,
    accs' = accs ++ [a] /\ bs' = bs ++ [b] /\
    iloc X_train train_index = Ok X_fit /\
    iloc_series y_train train_index = Ok y_fit /\
    iloc X_train val_index = Ok X_val /\
    iloc_series y_train val_index = Ok y_val /\
    clone (estimator self) = Ok e1 /\
    set_params e1 p = Ok e2 /\
    model_fit e2 X_fit y_fit = Ok e3 /\
    predict e3 X_val = Ok preds /\
    accuracy_score y_val preds = Ok a /\
    calculate_disparate_impact table pred_column pa
      (privileged_value self) (unprivileged_value self) = Ok b /\
    nrows table = length preds /\
    lookup_column (columns table) pred_column = Some preds /\
    (s_index y_val = index X_val ->
     index table = index X_val /\
     (pa <> pred_column ->
      lookup_column (columns table) pa = lookup_column (columns X_val) pa) /\
     (oc <> pa -> oc <> pred_column ->
      lookup_column (columns table) oc = Some (s_values y_val))).
Proof.
  unfold evaluate_fold, call_clone, call_set_params, call_fit, call_predict,
    record_call, bind, lift, modify, ret.
  intros Hr; step_binds Hr; split_pairs.
  match goal with
  | Hs : setitem ?d _ _ = Ok ?t |- _ =>
      unfold setitem in Hs;
      destruct (_ =? _) eqn:Hlen in Hs; [| discriminate];
      inversion Hs; subst; clear Hs; apply Nat.eqb_eq in Hlen
  end.
  cbv zeta; eexists _, _, _, _, _, _, _, _, _, _, _.
  repeat (split; [eauto; fail |]).
  split; [cbn [columns]; apply lookup_assign_same |].
  intros Hsame; cbn [index columns].
  match goal with
  | Hg : getitem _ (protected_attribute self) = Ok ?attr,
    Hd : DataFrame_of_dict _ _ _ ?attr = Ok ?d |- _ =>
      unfold getitem in Hg;
      destruct (lookup_column _ (protected_attribute self)) as [col |]
        eqn:Hcol in Hg; [| discriminate];
      inversion Hg; subst attr; clear Hg;
      unfold DataFrame_of_dict in Hd; cbn [s_index s_values] in Hd;
      rewrite Hsame, same_labels_refl in Hd;
      destruct (String.eqb (outcome_column self) (protected_attribute self))
        eqn:Hname in Hd;
      inversion Hd; subst d; clear Hd; cbn [index columns]
  end.
  - apply String.eqb_eq in Hname.
    split; [reflexivity | split].
    + intros Hne; rewrite lookup_assign_other by auto.
      cbn [lookup_column]; rewrite Hname, String.eqb_refl; now rewrite Hcol.
    + intros Hne; contradiction.
  - split; [reflexivity | split].
    + intros Hne; rewrite lookup_assign_other by auto.
      cbn [lookup_column]; rewrite Hname, String.eqb_refl; now rewrite Hcol.
    + intros _ Hne; rewrite lookup_assign_other by auto.
      cbn [lookup_column]; now rewrite String.eqb_refl.
Qed.

(** X15. With an empty grid a successful search evaluates the single
    empty configuration (the estimator as it is) and appends exactly
    one record. *)
Theorem fit_with_empty_grid
  (X_train : DataFrame) (y_train : Series) (w w' : World E) :
  param_grid (this w) = [] ->
  fit X_train y_train w = (Ok tt, w') ->
  exists r, results_ (this w') = results_ (this w) ++ [r] /\ params r = [].
Proof.
  intros Hg Hfit; apply fit_inv in Hfit.
  destruct Hfit as (done & recs & Hthis & Hmap & -> & _).
  rewrite Hg in Hmap; unfold grid_configs in Hmap; simpl in Hmap.
  destruct recs as [| r [| r' recs]]; try discriminate.
  inversion Hmap; exists r; split; auto.
  now rewrite Hthis.
Qed.
End FoldScores.

(** * The properties on concrete runs *)

Module Runs.
Import Fake.

(** A search over a 2 x 2 grid with two folds succeeds and appends four
    records. *)
Lemma fit_appends_one_record_per_configuration_run :
  let w := start grid_2x2 in
  let w' := snd (fit X_train y_train w) in
  fit X_train y_train w = (Ok tt, w') /\
  exists recs,
    results_ (this w') = results_ (this w) ++ recs /\
    map params recs = grid_configs (param_grid (this w)) /\
    length recs = grid_size (param_grid (this w)).
Proof.
  intros w w'; split; [vm_compute; reflexivity |].
  apply (fit_appends_one_record_per_configuration X_train y_train w).
  vm_compute; reflexivity.
Defined.




(** Two searches in a row over a grid of two configurations leave four
    records. *)
Lemma fit_accumulates_across_calls_run :
  let runs := [(X_train, y_train); (X_train, y_train)] in
  let w' := snd (fit_all runs (start grid_C)) in
  map params (results_ (this w')) =
  concat (repeat (grid_configs grid_C) (length runs)) /\
  length (results_ (this w')) = length runs * grid_size grid_C.
Proof.
  intros runs w'.
  apply (proj2 fit_accumulates_across_calls base grid_C full_df "outcome"%string
               "sex"%string (PInt 1) (PInt 0) 2%Z [] runs w').
  vm_compute; reflexivity.
Defined.

Lemma select_highest_accuracy_picks_first_maximum_run :
  let w := with_results mixed_records in
  exists pre r post,
    results_ (this w) = pre ++ r :: post /\
    Forall (fun x => accuracy x < accuracy r)%Q pre /\
    Forall (fun x => accuracy x <= accuracy r)%Q post /\
    select_highest_accuracy_model w = _retrain_model (params r) w.
Proof.
  intros w.
  apply (select_highest_accuracy_picks_first_maximum w).
  vm_compute; discriminate.
Defined.

Lemma select_least_biased_picks_minimum_run :
  let w := with_results mixed_records in
  exists r,
    In r (results_ (this w)) /\
    (forall x, In x (results_ (this w)) -> (bias r <= bias x)%Q) /\
    select_least_biased_model w = _retrain_model (params r) w.
Proof.
  intros w.
  apply (proj1 (select_least_biased_picks_minimum w)).
  vm_compute; discriminate.
Defined.

(** Two records tie at the minimum bias: the balanced policy over all
    records retrains with the more accurate one ([C = 2]), the
    least-bias policy with the first one ([C = 1]). *)
Lemma select_balanced_differs_from_least_biased_on_ties :
  let w := with_results tied_records in
  Z.of_nat (length (results_ (this w))) = 2%Z /\
  fst (select_balanced_model 2 w) =
  Ok {| hyper := [("C"%string, PInt 2)]; trained_rows := Some 6 |} /\
  fst (select_least_biased_model w) =
  Ok {| hyper := [("C"%string, PInt 1)]; trained_rows := Some 6 |} /\
  fst (select_balanced_model 2 w) <> fst (select_least_biased_model w).
Proof.
  vm_compute; repeat split; try reflexivity; discriminate.
Qed.

Lemma select_balanced_at_extreme_thresholds_run :
  let w := with_results mixed_records in
  let n := Z.of_nat (length (results_ (this w))) in
  let minimal r :=
    In r (results_ (this w)) /\
    forall x, In x (results_ (this w)) -> (bias r <= bias x)%Q in
  exists ranked r_balanced r_least,
    Permutation ranked (results_ (this w)) /\
    descending accuracy ranked /\
    (forall q,
        filter (fun r => Qeq_bool (accuracy r) q) ranked =
        filter (fun r => Qeq_bool (accuracy r) q) (results_ (this w))) /\
    first_min bias ranked r_balanced /\
    first_min bias (results_ (this w)) r_least /\
    minimal r_balanced /\ minimal r_least /\
    (bias r_balanced == bias r_least)%Q /\
    select_balanced_model n w = _retrain_model (params r_balanced) w /\
    select_least_biased_model w = _retrain_model (params r_least) w /\
    ((forall x y, minimal x -> minimal y -> params x = params y) ->
     select_balanced_model n w = select_least_biased_model w).
Proof.
  intros w.
  apply (proj2 (select_balanced_at_extreme_thresholds w)).
  vm_compute; discriminate.
Defined.

(** With two records, threshold 0 fails with [ValueError] and threshold
    3 returns a retrained model: neither raises
    [InvalidThresholdError]. *)
Lemma select_balanced_raises_no_threshold_error :
  let w := with_results tied_records in
  length (results_ (this w)) = 2 /\
  fst (select_balanced_model 0 w) = Raise ValueError /\
  fst (select_balanced_model 3 w) =
  Ok {| hyper := [("C"%string, PInt 2)]; trained_rows := Some 6 |} /\
  length (calls (snd (select_balanced_model 3 w))) = 3.
Proof. vm_compute; repeat split; reflexivity. Qed.

Lemma select_balanced_threshold_unchecked_run :
  let w := with_results tied_records in
  select_balanced_model 3 w =
  select_balanced_model (Z.of_nat (length (results_ (this w)))) w /\
  exists r,
    In r (results_ (this w)) /\
    select_balanced_model 3 w = _retrain_model (params r) w /\
    exists rest,
      calls (snd (select_balanced_model 3 w)) =
      calls w ++ CClone (estimator (this w)) :: rest.
Proof.
  intros w.
  apply (proj2 (select_balanced_threshold_unchecked w) 3%Z).
  - vm_compute; discriminate.
  - vm_compute; reflexivity.
Defined.

(** With three stored records each policy returns a model fitted on
    the six rows of the stored dataset. *)
Lemma selection_retrains_on_full_dataset_run :
  let w := with_results mixed_records in
  let fitted_on_all_rows (policy : Py LinearModel LinearModel) :=
    exists r m,
      In r (results_ (this w)) /\
      policy w = _retrain_model (params r) w /\
      fst (policy w) = Ok m /\
      hyper m = params r /\
      trained_rows m = Some (nrows (df (this w))) in
  fitted_on_all_rows select_highest_accuracy_model /\
  fitted_on_all_rows select_least_biased_model /\
  fitted_on_all_rows (select_balanced_model 2).
Proof.
  intros w fitted_on_all_rows.
  destruct (selection_retrains_on_full_dataset w)
    as (_ & _ & Hhigh & Hleast & Hbal & _).
  assert (Hall : forall policy r,
             In r (results_ (this w)) ->
             policy w = _retrain_model (params r) w ->
             fitted_on_all_rows policy).
  { intros policy r Hin Hsel; exists r.
    vm_compute in Hin.
    destruct Hin as [<- | [<- | [<- | []]]]; eexists;
      (split; [vm_compute; auto |]); (split; [exact Hsel |]);
      rewrite Hsel; vm_compute; repeat split; reflexivity. }
  split; [| split].
  - destruct Hhigh as (r & Hin & Hsel); [vm_compute; discriminate |]; eauto.
  - destruct Hleast as (r & Hin & Hsel); [vm_compute; discriminate |]; eauto.
  - destruct (Hbal 2%Z) as (r & Hin & Hsel); [vm_compute; discriminate |].
    eauto.
Defined.

(** Called with margin 0.1 the method returns normally. *)
Lemma find_optimum_model_raises_nothing :
  let w := start grid_C in
  fst (find_optimum_model (1 # 10) w) = Ok tt /\
  fst (find_optimum_model (1 # 10) w) <> Raise NotImplementedError.
Proof. vm_compute; split; [reflexivity | discriminate]. Qed.
End Runs.

(** * The further properties on concrete runs *)

Module MoreRuns.
Import Fake Cases.

Lemma selection_without_records_raises_run :
  let w := start grid_C in
  select_highest_accuracy_model w = (Raise ValueError, w) /\
  select_least_biased_model w = (Raise ValueError, w) /\
  forall threshold, select_balanced_model threshold w = (Raise ValueError, w).
Proof.
  intros w; apply (selection_without_records_raises w); reflexivity.
Defined.

(** With three records, threshold -1 behaves as threshold 2. *)
Lemma select_balanced_negative_threshold_run :
  let w := with_results mixed_records in
  select_balanced_model (- 1) w = select_balanced_model 2 w.
Proof.
  intros w; apply (select_balanced_negative_threshold w (k := 1%Z)); lia.
Defined.

Lemma retraining_needs_outcome_column_run :
  let w := no_outcome_world in
  fst (_retrain_model [("C"%string, PInt 1)] w) = Raise KeyError /\
  forall m, fst (select_least_biased_model w) <> Ok m.
Proof.
  intros w.
  assert (Hmiss : lookup_column (columns (df (this w)))
                                (outcome_column (this w)) = None)
    by reflexivity.
  destruct (retraining_needs_outcome_column w Hmiss) as [Hre Hpol]; split.
  - destruct (Hre [("C"%string, PInt 1)]) as (_ & Hkey & _).
    eapply Hkey; reflexivity.
  - intros m; apply (Hpol m).
Defined.

(** Two folds cannot be made of one row. *)
Lemma fit_rejects_bad_fold_count_run :
  let w := start grid_C in
  fit one_row one_outcome w = (Raise ValueError, w).
Proof.
  intros w; apply (fit_rejects_bad_fold_count one_row one_outcome w).
  right; vm_compute; reflexivity.
Defined.

Lemma fit_needs_protected_attribute_run :
  let w := start grid_C in
  (exists e, fst (fit no_sex y_train w) = Raise e) /\
  results_ (this (snd (fit no_sex y_train w))) = results_ (this w).
Proof.
  intros w; apply (fit_needs_protected_attribute no_sex y_train w).
  reflexivity.
Defined.

(** Four configurations and two folds: thirty-two estimator calls. *)
Lemma fit_estimator_calls_run :
  let w := start grid_2x2 in
  let w' := snd (fit X_train y_train w) in
  (exists kf folds blockss,
      KFold_init (cv (this w)) = Ok kf /\
      split kf (nrows X_train) = Ok folds /\
      Forall2 (fun p blocks =>
                 Forall2 (fold_calls (this w) X_train y_train p) folds blocks)
              (grid_configs (param_grid (this w))) blockss /\
      calls w' = calls w ++ concat (concat blockss)) /\
  length (calls w') = 32.
Proof.
  intros w w'.
  destruct (fit_estimator_calls X_train y_train w (w' := w'))
    as (kf & folds & blockss & Hkf & Hs & Hall & Hc & Hlen);
    [vm_compute; reflexivity |].
  split; [exists kf, folds, blockss; auto | exact Hlen].
Defined.

Lemma fit_records_take_values_from_grid_run :
  let w := start grid_2x2 in
  let w' := snd (fit X_train y_train w) in
  exists recs,
    results_ (this w') = results_ (this w) ++ recs /\
    Forall (fun r =>
      Permutation (map fst (params r)) (map fst (param_grid (this w))) /\
      forall name v,
        In (name, v) (params r) ->
        exists vs, In (name, vs) (param_grid (this w)) /\ In v vs) recs.
Proof.
  intros w w'.
  apply (fit_records_take_values_from_grid X_train y_train w).
  vm_compute; reflexivity.
Defined.

Lemma search_then_select_retrains_grid_configuration_run :
  let w := start grid_C in
  let w' := snd (fit X_train y_train w) in
  exists c, In c (grid_configs (param_grid (this w))) /\
            select_balanced_model 1 w' = _retrain_model c w'.
Proof.
  intros w w'.
  destruct (search_then_select_retrains_grid_configuration
              X_train y_train w (w' := w')) as (_ & _ & Hbal).
  - vm_compute; reflexivity.
  - reflexivity.
  - apply (Hbal 1%Z); lia.
Defined.

Lemma select_balanced_picks_least_biased_of_top_run :
  let w := with_results mixed_records in
  exists top rest r,
    Permutation (top ++ rest) (results_ (this w)) /\
    length top = Nat.min (Z.to_nat 2) (length (results_ (this w))) /\
    (forall x y, In x top -> In y rest -> (accuracy y <= accuracy x)%Q) /\
    In r top /\
    (forall x, In x top -> (bias r <= bias x)%Q) /\
    select_balanced_model 2 w = _retrain_model (params r) w.
Proof.
  intros w.
  apply (select_balanced_picks_least_biased_of_top w (t := 2%Z)).
  - lia.
  - vm_compute; discriminate.
Defined.

(** Seven rows in three folds. *)
Lemma split_partitions_rows_run :
  let folds := [([3; 4; 5; 6], [0; 1; 2]); ([0; 1; 2; 5; 6], [3; 4]);
                ([0; 1; 2; 3; 4], [5; 6])] in
  concat (map snd folds) = seq 0 7 /\
  Forall (fun fold => snd fold <> []) folds /\
  Forall (fun fold =>
            forall i, In i (fst fold) <-> i < 7 /\ ~ In i (snd fold)) folds.
Proof.
  intros folds.
  apply (split_partitions_rows {| n_splits := 3 |} 7).
  - simpl; lia.
  - vm_compute; reflexivity.
Defined.

Lemma fold_scores_come_from_validation_predictions_run :
  let self := search grid_C in
  let w := start grid_C in
  let run := evaluate_fold self X_train y_train [("C"%string, PInt 1)]
                           ([], []) ([2; 3], [0; 1]) w in
  exists preds table,
    index table = [0; 1]%Z /\
    lookup_column (columns table) "outcome_pred"%string = Some preds /\
    lookup_column (columns table) "sex"%string = Some [PInt 1; PInt 0] /\
    lookup_column (columns table) "outcome"%string = Some [PInt 1; PInt 0].
Proof.
  intros self w run.
  destruct (fold_scores_come_from_validation_predictions
              self X_train y_train [("C"%string, PInt 1)] [] []
              [2; 3] [0; 1] w (w' := snd run)
              (accs' := match fst run with Ok sc => fst sc | _ => [] end)
              (bs' := match fst run with Ok sc => snd sc | _ => [] end))
    as (X_fit & y_fit & X_val & y_val & e1 & e2 & e3 & preds & table & a & b
        & _ & _ & _ & _ & HXval & Hyval & _ & _ & _ & _ & _ & _ & _ & Hpred
        & Hrows).
  - vm_compute; reflexivity.
  - vm_compute in HXval, Hyval; inversion HXval; inversion Hyval; subst.
    destruct Hrows as (Hix & Hattr & Hout); [reflexivity |].
    exists preds, table; split; [exact Hix | split; [exact Hpred |]].
    split.
    + specialize (Hattr ltac:(vm_compute; discriminate)).
      change (protected_attribute self) with "sex"%string in Hattr.
      rewrite Hattr; reflexivity.
    + specialize (Hout ltac:(vm_compute; discriminate)
                       ltac:(vm_compute; discriminate)).
      change (outcome_column self) with "outcome"%string in Hout.
      rewrite Hout; reflexivity.
Defined.

Lemma fit_with_empty_grid_run :
  let w := start [] in
  let w' := snd (fit X_train y_train w) in
  exists r, results_ (this w') = results_ (this w) ++ [r] /\ params r = [].
Proof.
  intros w w'.
  apply (fit_with_empty_grid X_train y_train w).
  - reflexivity.
  - vm_compute; reflexivity.
Defined.
End MoreRuns.
